(** * Storefront theme widgets: cart drawer, product gallery, announcement
      rotator and sticky header

    A shallow embedding of the Alpine.js components of
    [assets/alpine-components.js] (cartDrawer, productGallery,
    alpineAnnouncement) and of the [alpineHeader] component, together with the
    properties the theme's specification states about them.

    Conventions of the embedding:
    - a component is a record of its reactive fields; a method is a function
      on that record, threaded through an explicit record of the browser
      state it touches (network log, event log, cookie jar, timers);
    - JavaScript integers (indices, counts, scroll offsets, millisecond
      timestamps) are [Z]; [%] is [Z.rem], the truncating remainder;
    - [null] is [None] for nullable fields, and [JNull] inside JSON data;
    - [try]/[catch]/[finally] is a small exception monad over the
      configuration;
    - an [async] method is cut at its [await]: a synchronous prefix and a
      continuation that receives the settled network outcome. *)

From Stdlib Require Import ZArith List String Ascii Bool Lia DecimalString.
Import ListNotations.
Local Open Scope string_scope.
Local Open Scope Z_scope.

(** ** JSON values *)

(** What [response.json()] produces and what a gallery holds as image
    references.  Numbers are restricted to integers, which is all the
    components ever inspect. *)
#[local] Unset Elimination Schemes.
Inductive json : Type :=
| JNull
| JBool (b : bool)
| JNum (n : Z)
| JStr (s : string)
| JArr (items : list json)
| JObj (fields : list (string * json)).
#[local] Set Elimination Schemes.

(** JavaScript truthiness, as used by [||] and by [if (x)]. *)
Definition truthy (v : json) : bool :=
  match v with
  | JNull => false
  | JBool b => b
  | JNum n => negb (n =? 0)
  | JStr s => negb (String.eqb s "")
  | JArr _ => true
  | JObj _ => true
  end.

(** Decimal rendering of an integer inside a template literal. *)
Definition string_of_Z (n : Z) : string :=
  NilZero.string_of_int (Z.to_int n).

(** ** JavaScript string primitives *)

(** [s.startsWith(p)], returning what follows the prefix. *)
Fixpoint strip_prefix (p s : string) : option string :=
  match p with
  | EmptyString => Some s
  | String a p' =>
      match s with
      | EmptyString => None
      | String b s' => if Ascii.eqb a b then strip_prefix p' s' else None
      end
  end.

(** The leftmost occurrence of [sep] in [s]: the text before it and the text
    after it. *)
Fixpoint find_first (sep s : string) : option (string * string) :=
  match strip_prefix sep s with
  | Some rest => Some ("", rest)
  | None =>
      match s with
      | EmptyString => None
      | String c s' =>
          match find_first sep s' with
          | Some (a, b) => Some (String c a, b)
          | None => None
          end
      end
  end.

Fixpoint split_fuel (fuel : nat) (sep s : string) : list string :=
  match fuel with
  | O => [s]
  | S f =>
      match find_first sep s with
      | Some (a, b) => a :: split_fuel f sep b
      | None => [s]
      end
  end.

(** [s.split(sep)] for a non-empty separator: cut at the leftmost occurrence,
    go on with what follows it.  Every cut consumes at least one character, so
    the length of [s] bounds the number of cuts. *)
Definition split (sep s : string) : list string :=
  split_fuel (String.length s) sep s.

(** [parts.pop()] and [parts.shift()], as far as their return value goes:
    the last and the first element, [undefined] on an empty array. *)
Fixpoint pop (l : list string) : option string :=
  match l with
  | [] => None
  | [x] => Some x
  | _ :: l' => pop l'
  end.

Definition shift (l : list string) : option string := hd_error l.

(** [l.join(sep)]. *)
Fixpoint join (sep : string) (l : list string) : string :=
  match l with
  | [] => ""
  | [x] => x
  | x :: l' => x ++ sep ++ join sep l'
  end.

Definition is_space (c : ascii) : bool :=
  Ascii.eqb c " " || Ascii.eqb c "009".

Fixpoint trim_left (s : string) : string :=
  match s with
  | EmptyString => ""
  | String c s' => if is_space c then trim_left s' else s
  end.

Fixpoint trim_right (s : string) : string :=
  match s with
  | EmptyString => ""
  | String c s' =>
      match trim_right s' with
      | EmptyString => if is_space c then "" else String c ""
      | t => String c t
      end
  end.

Definition trim (s : string) : string := trim_right (trim_left s).

(** [c] does not occur in [s]. *)
Fixpoint lacks (c : ascii) (s : string) : bool :=
  match s with
  | EmptyString => true
  | String a s' => negb (Ascii.eqb a c) && lacks c s'
  end.

(* ------------------------------------------------------------------------- *)
(** ** cartDrawer *)

Module CartDrawer.

(** The reactive fields of the component. *)
Record state : Type := mkState {
  isOpen : bool;
  isLoading : bool;
  cart : json;                 (* null until the first successful fetch *)
  error : option string
}.

Record request : Type := mkRequest {
  url : string;
  method : string;
  content_type : string;
  payload : option json
}.

(** The part of the browser the component acts on. *)
Record env : Type := mkEnv {
  requests : list request;          (* fetch calls issued, newest first *)
  events : list (string * json);    (* CustomEvents dispatched on window, newest first *)
  console : list string;            (* console.error lines, newest first *)
  body_classes : list string        (* document.body.classList *)
}.

Definition config : Type := (state * env)%type.

(** How a [fetch] followed by [response.json()] settles: the promise
    rejects (transport error), or a response arrives with a status and a
    body that parses as JSON or does not. *)
Inductive fetch_result : Type :=
| NetworkError
| Response (status : Z) (parsed : option json).

(** [response.ok]: status in the range 200-299. *)
Definition ok (status : Z) : bool := (200 <=? status) && (status <=? 299).

(** *** Exceptions *)

Inductive outcome (A : Type) : Type :=
| Done (a : A)
| Thrown (e : string).
Arguments Done {A} a.
Arguments Thrown {A} e.

Definition proc (A : Type) : Type := config -> outcome A * config.

Definition ret {A} (a : A) : proc A := fun c => (Done a, c).
Definition throw {A} (e : string) : proc A := fun c => (Thrown e, c).
Definition bind {A B} (m : proc A) (k : A -> proc B) : proc B :=
  fun c => match m c with
           | (Done a, c1) => k a c1
           | (Thrown e, c1) => (Thrown e, c1)
           end.
Definition modify (f : config -> config) : proc unit :=
  fun c => (Done tt, f c).

Notation "x <- m ;; k" := (bind m (fun x => k))
  (at level 61, m at next level, right associativity).
Notation "m ;;; k" := (bind m (fun _ => k))
  (at level 61, right associativity).

(** [try { body } catch (e) { handler } finally { fin }]. *)
Definition try_catch_finally {A} (body : proc A) (handler : string -> proc A)
           (fin : proc unit) : proc A :=
  fun c =>
    let (r, c1) := body c in
    let (r2, c2) := match r with
                    | Done a => (Done a, c1)
                    | Thrown e => handler e c1
                    end in
    let (r3, c3) := fin c2 in
    match r3 with
    | Done _ => (r2, c3)
    | Thrown e => (Thrown e, c3)
    end.

(** *** Field updates *)

Definition set_isOpen (b : bool) (s : state) : state :=
  mkState b (isLoading s) (cart s) (error s).
Definition set_isLoading (b : bool) (s : state) : state :=
  mkState (isOpen s) b (cart s) (error s).
Definition set_cart (j : json) (s : state) : state :=
  mkState (isOpen s) (isLoading s) j (error s).
Definition set_error (e : option string) (s : state) : state :=
  mkState (isOpen s) (isLoading s) (cart s) e.

Definition on_state (f : state -> state) : proc unit :=
  modify (fun c => (f (fst c), snd c)).

Definition fetch_call (r : request) : proc unit :=
  modify (fun c => (fst c, mkEnv (r :: requests (snd c)) (events (snd c))
                                 (console (snd c)) (body_classes (snd c)))).
Definition dispatchEvent (name : string) (detail : json) : proc unit :=
  modify (fun c => (fst c, mkEnv (requests (snd c)) ((name, detail) :: events (snd c))
                                 (console (snd c)) (body_classes (snd c)))).
Definition console_error (line : string) : proc unit :=
  modify (fun c => (fst c, mkEnv (requests (snd c)) (events (snd c))
                                 (line :: console (snd c)) (body_classes (snd c)))).

(** [classList.add] / [classList.remove]. *)
Definition classList_add (cls : string) (l : list string) : list string :=
  if existsb (String.eqb cls) l then l else (l ++ [cls])%list.
Definition classList_remove (cls : string) (l : list string) : list string :=
  filter (fun x => negb (String.eqb cls x)) l.
Definition on_body_classes (f : list string -> list string) : proc unit :=
  modify (fun c => (fst c, mkEnv (requests (snd c)) (events (snd c))
                                 (console (snd c)) (f (body_classes (snd c))))).

(** *** Methods *)

Definition initial : state := mkState false false JNull None.

Definition open : proc unit :=
  on_state (set_isOpen true) ;;;
  on_body_classes (classList_add "overflow-hidden").

Definition close : proc unit :=
  on_state (set_isOpen false) ;;;
  on_body_classes (classList_remove "overflow-hidden").

Definition toggle : proc unit :=
  fun c => if isOpen (fst c) then close c else open c.

(** After [await fetch(...)]: the [response.ok] check and
    [await response.json()], shared by both methods. *)
Definition await_json (r : fetch_result) : proc json :=
  match r with
  | NetworkError => throw "TypeError: Failed to fetch"
  | Response status parsed =>
      if negb (ok status)
      then throw ("Error: HTTP error! status: " ++ string_of_Z status)
      else match parsed with
           | Some j => ret j
           | None => throw "SyntaxError: Unexpected token in JSON"
           end
  end.

(** [refreshCart], up to the point where [fetch] has been called. *)
Definition refreshCart_start : proc unit :=
  on_state (set_isLoading true) ;;;
  on_state (set_error None) ;;;
  fetch_call (mkRequest "/cart.js" "GET" "application/json" None).

(** [refreshCart], from the settled [fetch] to the end. *)
Definition refreshCart_resume (r : fetch_result) : proc unit :=
  try_catch_finally
    (j <- await_json r ;;
     on_state (set_cart j))
    (fun e =>
       console_error ("Error fetching cart: " ++ e) ;;;
       on_state (set_error (Some "Unable to load cart. Please refresh the page.")))
    (on_state (set_isLoading false)).

Definition change_payload (lineItemKey : string) (quantity : Z) : json :=
  JObj [("id", JStr lineItemKey); ("quantity", JNum quantity)].

Definition updateQuantity_start (lineItemKey : string) (quantity : Z) : proc unit :=
  on_state (set_isLoading true) ;;;
  on_state (set_error None) ;;;
  fetch_call (mkRequest "/cart/change.js" "POST" "application/json"
                        (Some (change_payload lineItemKey quantity))).

Definition updateQuantity_resume (r : fetch_result) : proc unit :=
  try_catch_finally
    (updatedCart <- await_json r ;;
     on_state (set_cart updatedCart) ;;;
     dispatchEvent "cart:updated" updatedCart)
    (fun e =>
       console_error ("Error updating cart: " ++ e) ;;;
       on_state (set_error (Some "Unable to update cart. Please try again.")))
    (on_state (set_isLoading false)).

(** The two ways a call is said to end. *)
Definition failed (r : fetch_result) : Prop :=
  match r with
  | NetworkError => True
  | Response status _ => ok status = false
  end.

Definition succeeded_with (r : fetch_result) (body : json) : Prop :=
  exists status, ok status = true /\ r = Response status (Some body).

(** The configuration a procedure leaves behind. *)
Definition after {A} (m : proc A) (c : config) : config := snd (m c).
Definition completes {A} (m : proc A) (c : config) : Prop :=
  exists a, fst (m c) = Done a.

(** *** Events *)

(** The listeners that [init] installs on [window]: on [cart:add] the cart is
    refreshed, without waiting for the response, and the drawer opens; on
    [cart:update] the cart is refreshed.  [init] itself ends with the same
    call of [refreshCart()]. *)
Definition on_cart_add : proc unit := refreshCart_start ;;; open.
Definition on_cart_update : proc unit := refreshCart_start.
Definition init : proc unit := refreshCart_start.

(** What can happen to the component, one handler at a time: a window event,
    a method call (an [async] method runs up to its [fetch]), or the pending
    [fetch] of an earlier call settling, which resumes that call. *)
Inductive event : Type :=
| EvCartAdd
| EvCartUpdate
| EvOpen
| EvClose
| EvToggle
| EvRefreshCart
| EvUpdateQuantity (lineItemKey : string) (quantity : Z)
| EvRemoveItem (lineItemKey : string)
| EvRefreshSettled (r : fetch_result)
| EvUpdateSettled (r : fetch_result).

Definition handle (e : event) : proc unit :=
  match e with
  | EvCartAdd => on_cart_add
  | EvCartUpdate => on_cart_update
  | EvOpen => open
  | EvClose => close
  | EvToggle => toggle
  | EvRefreshCart => refreshCart_start
  | EvUpdateQuantity k q => updateQuantity_start k q
  | EvRemoveItem k => updateQuantity_start k 0
  | EvRefreshSettled r => refreshCart_resume r
  | EvUpdateSettled r => updateQuantity_resume r
  end.

Definition run (evs : list event) (c : config) : config :=
  fold_left (fun c e => after (handle e) c) evs c.

(** The body a settled fetch delivers, if it is a 2xx response with a JSON
    body. *)
Definition delivered (r : fetch_result) : option json :=
  match r with
  | NetworkError => None
  | Response status parsed => if ok status then parsed else None
  end.

(** The body delivered by the last successful settle of a trace. *)
Fixpoint last_delivered (evs : list event) (before : option json) : option json :=
  match evs with
  | [] => before
  | EvRefreshSettled r :: evs' | EvUpdateSettled r :: evs' =>
      last_delivered evs' (match delivered r with Some j => Some j | None => before end)
  | _ :: evs' => last_delivered evs' before
  end.

(** The requests a trace issues, oldest first. *)
Fixpoint issued (evs : list event) : list request :=
  match evs with
  | [] => []
  | e :: evs' =>
      match e with
      | EvCartAdd | EvCartUpdate | EvRefreshCart =>
          [mkRequest "/cart.js" "GET" "application/json" None]
      | EvUpdateQuantity k q =>
          [mkRequest "/cart/change.js" "POST" "application/json" (Some (change_payload k q))]
      | EvRemoveItem k =>
          [mkRequest "/cart/change.js" "POST" "application/json" (Some (change_payload k 0))]
      | _ => []
      end ++ issued evs'
  end%list.

(** The bodies of the successful [updateQuantity] settles of a trace, oldest
    first. *)
Fixpoint updates_delivered (evs : list event) : list json :=
  match evs with
  | [] => []
  | EvUpdateSettled r :: evs' =>
      match delivered r with
      | Some j => j :: updates_delivered evs'
      | None => updates_delivered evs'
      end
  | _ :: evs' => updates_delivered evs'
  end.

(** The drawer is open exactly when the page is scroll-locked. *)
Definition lock_agrees (c : config) : Prop :=
  isOpen (fst c) = true <-> In "overflow-hidden" (body_classes (snd c)).

(** *** Calls, from start to end *)

(** An [async] method gives control back at its [await]: between its start
    and its resumption other handlers run, among them the starts and the
    settlings of other calls. *)
Definition meanwhile (between : list event) : proc unit := modify (run between).

Definition refreshCart (between : list event) (r : fetch_result) : proc unit :=
  refreshCart_start ;;; meanwhile between ;;; refreshCart_resume r.

Definition updateQuantity (lineItemKey : string) (quantity : Z)
           (between : list event) (r : fetch_result) : proc unit :=
  updateQuantity_start lineItemKey quantity ;;; meanwhile between ;;;
  updateQuantity_resume r.

Definition removeItem (lineItemKey : string) (between : list event)
           (r : fetch_result) : proc unit :=
  updateQuantity lineItemKey 0 between r.

(** No fetch settles in the trace. *)
Definition settles (e : event) : bool :=
  match e with
  | EvRefreshSettled _ | EvUpdateSettled _ => true
  | _ => false
  end.

Definition undisturbed (between : list event) : bool :=
  forallb (fun e => negb (settles e)) between.

(** The error a trace leaves: the start of a call clears it, a failed settle
    sets its message, nothing else touches it. *)
Fixpoint last_error (evs : list event) (before : option string) : option string :=
  match evs with
  | [] => before
  | e :: evs' =>
      last_error evs'
        (match e with
         | EvCartAdd | EvCartUpdate | EvRefreshCart
         | EvUpdateQuantity _ _ | EvRemoveItem _ => None
         | EvRefreshSettled r =>
             match delivered r with
             | Some _ => before
             | None => Some "Unable to load cart. Please refresh the page."
             end
         | EvUpdateSettled r =>
             match delivered r with
             | Some _ => before
             | None => Some "Unable to update cart. Please try again."
             end
         | EvOpen | EvClose | EvToggle => before
         end)
  end.

(** [refreshCart] read as independent of what happens while it is in
    flight. *)
Definition refreshCart_as_claimed : Prop :=
  forall (between : list event) (r : fetch_result) (s : state) (w : env),
    let c' := after (refreshCart between r) (s, w) in
    (forall body, succeeded_with r body ->
       cart (fst c') = body /\ error (fst c') = None) /\
    (failed r -> cart (fst c') = cart s /\ error (fst c') <> None).

(** [updateQuantity] read as independent of what happens while it is in
    flight. *)
Definition updateQuantity_as_claimed : Prop :=
  forall (lineItemKey : string) (quantity : Z) (between : list event)
         (r : fetch_result) (s : state) (w : env),
    let c' := after (updateQuantity lineItemKey quantity between r) (s, w) in
    (failed r -> cart (fst c') = cart s /\ error (fst c') <> None) /\
    (forall body, succeeded_with r body ->
       cart (fst c') = body /\ In ("cart:updated", body) (events (snd c'))).

End CartDrawer.

(* ------------------------------------------------------------------------- *)
(** ** productGallery *)

Module ProductGallery.

Record state : Type := mkState {
  currentIndex : Z;
  images : list json
}.

Definition create (images : list json) : state := mkState 0 images.

Definition set_currentIndex (i : Z) (s : state) : state := mkState i (images s).

(** [images.length]. *)
Definition length (s : state) : Z := Z.of_nat (List.length (images s)).

(** [a[i]] for an integer [i]: the element, or [undefined] outside the
    array. *)
Definition element (a : list json) (i : Z) : option json :=
  if i <? 0 then None else nth_error a (Z.to_nat i).

(** [v || null], where [v] may be [undefined]. *)
Definition or_null (v : option json) : json :=
  match v with
  | Some x => if truthy x then x else JNull
  | None => JNull
  end.

Definition currentImage (s : state) : json :=
  or_null (element (images s) (currentIndex s)).

Definition hasMultipleImages (s : state) : bool := 1 <? length s.
Definition isFirst (s : state) : bool := currentIndex s =? 0.
Definition isLast (s : state) : bool := currentIndex s =? length s - 1.

Definition next (s : state) : state :=
  if negb (isLast s) then set_currentIndex (currentIndex s + 1) s
  else set_currentIndex 0 s.

Definition previous (s : state) : state :=
  if negb (isFirst s) then set_currentIndex (currentIndex s - 1) s
  else set_currentIndex (length s - 1) s.

Definition goTo (index : Z) (s : state) : state :=
  if (0 <=? index) && (index <? length s) then set_currentIndex index s else s.

(** [handleKeydown]: the new state, and whether [preventDefault] was called. *)
Definition handleKeydown (key : string) (s : state) : state * bool :=
  if String.eqb key "ArrowLeft" then (previous s, true)
  else if String.eqb key "ArrowRight" then (next s, true)
  else (s, false).

(** The reading of [currentImage] under test: the element at [currentIndex]
    when the index is within bounds, null otherwise. *)
Definition currentImage_is_element : Prop :=
  forall g : state,
    (0 <= currentIndex g < length g ->
       Some (currentImage g)
       = nth_error (images g) (Z.to_nat (currentIndex g))) /\
    (currentIndex g < 0 \/
     length g <= currentIndex g ->
       currentImage g = JNull).

(** *** Runs *)

Inductive op : Type :=
| OpNext
| OpPrevious
| OpGoTo (index : Z)
| OpKeydown (key : string).

Definition step (o : op) (s : state) : state :=
  match o with
  | OpNext => next s
  | OpPrevious => previous s
  | OpGoTo i => goTo i s
  | OpKeydown k => fst (handleKeydown k s)
  end.

Definition run (ops : list op) (s : state) : state :=
  fold_left (fun s o => step o s) ops s.

(** The GalleryState invariant. *)
Definition in_bounds (s : state) : Prop := 0 <= currentIndex s < length s.

End ProductGallery.

(* ------------------------------------------------------------------------- *)
(** ** alpineAnnouncement *)

Module Announcement.

Record state : Type := mkState {
  currentIndex : Z;
  totalMessages : Z;
  rotationSpeed : Z;
  intervalId : option positive;     (* a timer id is a positive integer, hence truthy *)
  isPaused : bool;
  isClosed : bool;
  sectionId : string;
  showCloseButton : bool
}.

(** The component as [Alpine.data] builds it from its four parameters. *)
Definition create (totalMessages rotationSpeed : Z) (sectionId : string)
           (showCloseButton : bool) : state :=
  mkState 0 totalMessages rotationSpeed None false false sectionId showCloseButton.

Definition set_currentIndex (i : Z) (s : state) : state :=
  mkState i (totalMessages s) (rotationSpeed s) (intervalId s) (isPaused s)
          (isClosed s) (sectionId s) (showCloseButton s).
Definition set_intervalId (t : option positive) (s : state) : state :=
  mkState (currentIndex s) (totalMessages s) (rotationSpeed s) t (isPaused s)
          (isClosed s) (sectionId s) (showCloseButton s).
Definition set_isPaused (b : bool) (s : state) : state :=
  mkState (currentIndex s) (totalMessages s) (rotationSpeed s) (intervalId s) b
          (isClosed s) (sectionId s) (showCloseButton s).
Definition set_isClosed (b : bool) (s : state) : state :=
  mkState (currentIndex s) (totalMessages s) (rotationSpeed s) (intervalId s)
          (isPaused s) b (sectionId s) (showCloseButton s).

(** *** The browser: clock, cookie jar, timers *)

Record cookie : Type := mkCookie {
  c_name : string;
  c_value : string;
  c_path : string;
  c_expires : option Z       (* milliseconds since the epoch; None: session cookie *)
}.

(** Calls of the two timer methods, kept only to state the rotation
    invariant; no method reads this. *)
Inductive call : Type := CallStart | CallStop.

Record env : Type := mkEnv {
  now : Z;                            (* Date.now(), milliseconds *)
  jar : list cookie;                  (* the cookies in scope of the document *)
  timers : list (positive * Z);       (* live intervals: id and delay *)
  next_timer : positive;              (* the id the next setInterval returns *)
  keydown_listeners : nat;            (* listeners added on $el *)
  history : list call                 (* newest first *)
}.

Definition config : Type := (state * env)%type.

Definition set_now (t : Z) (w : env) : env :=
  mkEnv t (jar w) (timers w) (next_timer w) (keydown_listeners w) (history w).
Definition set_jar (j : list cookie) (w : env) : env :=
  mkEnv (now w) j (timers w) (next_timer w) (keydown_listeners w) (history w).
Definition record_call (k : call) (w : env) : env :=
  mkEnv (now w) (jar w) (timers w) (next_timer w) (keydown_listeners w) (k :: history w).
Definition addEventListener_keydown (w : env) : env :=
  mkEnv (now w) (jar w) (timers w) (next_timer w) (S (keydown_listeners w)) (history w).

Definition setInterval (delay : Z) (w : env) : positive * env :=
  (next_timer w,
   mkEnv (now w) (jar w) ((next_timer w, delay) :: timers w) (Pos.succ (next_timer w))
         (keydown_listeners w) (history w)).

Definition clearInterval (id : positive) (w : env) : env :=
  mkEnv (now w) (jar w) (filter (fun t => negb (Pos.eqb (fst t) id)) (timers w))
        (next_timer w) (keydown_listeners w) (history w).

(** A cookie is served until its expiry time. *)
Definition live (t : Z) (c : cookie) : bool :=
  match c_expires c with
  | None => true
  | Some e => t <? e
  end.

Definition cookie_text (c : cookie) : string := c_name c ++ "=" ++ c_value c.

(** Reading [document.cookie]. *)
Definition document_cookie (w : env) : string :=
  join "; " (map cookie_text (filter (live (now w)) (jar w))).

Definition same_cookie (name path : string) (c : cookie) : bool :=
  String.eqb (c_name c) name && String.eqb (c_path c) path.

(** Assigning to [document.cookie]: the browser's side of [setCookie], after
    the storage rules of RFC 6265.  [text] is the assigned string up to its
    attributes; the attributes [expires=<date>;path=<path>] are kept parsed, at
    the one-second resolution of the date text.  The name-value pair ends at
    the first [;] and is cut at its first [=], both sides are trimmed, and a
    pair without [=] or with an empty name is ignored; the new cookie replaces
    the one with the same name and path, and a date in the past removes it.
    The jar lists the cookies in the order [document.cookie] serves them. *)
Definition document_cookie_set (text : string) (expires : option Z) (path : string)
           (w : env) : env :=
  let pair := match find_first ";" text with Some (a, _) => a | None => text end in
  match find_first "=" pair with
  | None => w
  | Some (n, v) =>
      let name := trim n in
      let value := trim v in
      if String.eqb name "" then w
      else
        let others := filter (fun c => negb (same_cookie name path c)) (jar w) in
        let expired := match expires with Some e => e <=? now w | None => false end in
        set_jar (if expired then others
                 else (others ++ [mkCookie name value path expires])%list) w
  end.

(** *** Methods *)

Definition getCookie (name : string) (w : env) : option string :=
  let value := "; " ++ document_cookie w in
  let parts := split ("; " ++ name ++ "=") value in
  if Nat.eqb (List.length parts) 2 then
    match pop parts with
    | Some p => shift (split ";" p)
    | None => None
    end
  else None.

(** [date.toUTCString()] keeps whole seconds. *)
Definition whole_seconds (t : Z) : Z := 1000 * (t / 1000).

Definition setCookie (name value : string) (days : Z) (w : env) : env :=
  let date := now w + days * 24 * 60 * 60 * 1000 in
  document_cookie_set (name ++ "=" ++ value) (Some (whole_seconds date)) "/" w.

Definition closed_cookie_name (s : state) : string :=
  "announcement-" ++ sectionId s ++ "-closed".

(** [v === lit] for a value that is a string or [null]. *)
Definition strict_eq (v : option string) (lit : string) : bool :=
  match v with
  | Some x => String.eqb x lit
  | None => false
  end.

Definition next (s : state) : state :=
  set_currentIndex (Z.rem (currentIndex s + 1) (totalMessages s)) s.

Definition previous (s : state) : state :=
  set_currentIndex (Z.rem (currentIndex s - 1 + totalMessages s) (totalMessages s)) s.

(** The function handed to [setInterval]. *)
Definition interval_callback (s : state) : state :=
  if negb (isPaused s) then next s else s.

Definition startRotation (c : config) : config :=
  let (s, w) := c in
  let w1 := match intervalId s with
            | Some id => clearInterval id w
            | None => w
            end in
  let (id, w2) := setInterval (rotationSpeed s) w1 in
  (set_intervalId (Some id) s, record_call CallStart w2).

Definition stopRotation (c : config) : config :=
  let (s, w) := c in
  match intervalId s with
  | Some id => (set_intervalId None s, record_call CallStop (clearInterval id w))
  | None => (s, record_call CallStop w)
  end.

Definition pauseRotation (s : state) : state := set_isPaused true s.
Definition resumeRotation (s : state) : state := set_isPaused false s.

Definition init (c : config) : config :=
  let (s, w) := c in
  let s1 := if showCloseButton s
            then set_isClosed (strict_eq (getCookie (closed_cookie_name s) w) "true") s
            else s in
  let c1 := if negb (isClosed s1) && (1 <? totalMessages s1)
            then startRotation (s1, w)
            else (s1, w) in
  (fst c1, addEventListener_keydown (snd c1)).

Definition goTo (index : Z) (c : config) : config :=
  let (s, w) := c in
  if (0 <=? index) && (index <? totalMessages s) then
    let s1 := set_currentIndex index s in
    if 1 <? totalMessages s1 then startRotation (stopRotation (s1, w))
    else (s1, w)
  else c.

Definition closeAnnouncement (c : config) : config :=
  let (s, w) := c in
  let (s1, w1) := stopRotation (set_isClosed true s, w) in
  (s1, setCookie (closed_cookie_name s1) "true" 30 w1).

Definition destroy (c : config) : config := stopRotation c.

(** The interval [id] comes due: its callback runs if the timer is live. *)
Definition fire (id : positive) (c : config) : config :=
  let (s, w) := c in
  if existsb (fun t => Pos.eqb (fst t) id) (timers w)
  then (interval_callback s, w)
  else c.

(** *** Runs *)

Inductive op : Type :=
| OpInit | OpStartRotation | OpStopRotation | OpPauseRotation | OpResumeRotation
| OpNext | OpPrevious | OpGoTo (index : Z) | OpCloseAnnouncement | OpDestroy.

Definition on_state (f : state -> state) (c : config) : config := (f (fst c), snd c).

Definition step (o : op) (c : config) : config :=
  match o with
  | OpInit => init c
  | OpStartRotation => startRotation c
  | OpStopRotation => stopRotation c
  | OpPauseRotation => on_state pauseRotation c
  | OpResumeRotation => on_state resumeRotation c
  | OpNext => on_state next c
  | OpPrevious => on_state previous c
  | OpGoTo i => goTo i c
  | OpCloseAnnouncement => closeAnnouncement c
  | OpDestroy => destroy c
  end.

Definition run (ops : list op) (c : config) : config :=
  fold_left (fun c o => step o c) ops c.

(** Rotation was stopped and not started again since. *)
Definition manually_stopped (w : env) : bool :=
  match history w with
  | CallStop :: _ => true
  | _ => false
  end.





(** Well-formed cookie jars: no [;] in a name or a value, no [=] in a name. *)
Definition cookie_ok (c : cookie) : bool :=
  lacks ";" (c_name c) && lacks "=" (c_name c) && lacks ";" (c_value c).

(** No cookie in scope carries the name [name] under a path other than [/]. *)
Definition unshadowed (name : string) (j : list cookie) : bool :=
  forallb (fun c => implb (String.eqb (c_name c) name) (String.eqb (c_path c) "/")) j.

Definition thirty_days : Z := 30 * 24 * 60 * 60 * 1000.

(** The dismissal cookie as [closeAnnouncement] stores it at time [t]. *)
Definition dismissal_cookie (s : state) (t : Z) : cookie :=
  mkCookie (closed_cookie_name s) "true" "/" (Some (whole_seconds (t + thirty_days))).


(** *** Keyboard *)

Definition digit_value (c : ascii) : option Z :=
  let n := Z.of_N (N_of_ascii c) in
  if (48 <=? n) && (n <=? 57) then Some (n - 48) else None.

Fixpoint leading_digits (acc : Z) (s : string) : Z :=
  match s with
  | EmptyString => acc
  | String c s' =>
      match digit_value c with
      | Some d => leading_digits (10 * acc + d) s'
      | None => acc
      end
  end.

(** [parseInt(s)] for a string that starts with one of the digits 1 to 9: the
    decimal value of its longest prefix of digits.  This is the only case
    [handleKeydown] reaches. *)
Definition parseInt (s : string) : Z := leading_digits 0 s.

(** [handleKeydown]: the new configuration, and whether [preventDefault] was
    called.  [>=] and [<=] on strings compare them lexicographically. *)
Definition handleKeydown (key : string) (c : config) : config * bool :=
  if String.eqb key "ArrowLeft" then (on_state previous c, true)
  else if String.eqb key "ArrowRight" then (on_state next c, true)
  else if String.leb "1" key && String.leb key "3" then
    let index := parseInt key - 1 in
    if index <? totalMessages (fst c) then (goTo index c, true)
    else (c, false)
  else (c, false).

(** Everything that can reach the component: a method call, a key pressed on
    its element, an interval coming due. *)
Inductive action : Type :=
| Call (o : op)
| Keydown (key : string)
| Fire (id : positive).

Definition act (a : action) (c : config) : config :=
  match a with
  | Call o => step o c
  | Keydown k => fst (handleKeydown k c)
  | Fire id => fire id c
  end.

Definition run_actions (acts : list action) (c : config) : config :=
  fold_left (fun c a => act a c) acts c.

(** *** Looking a cookie up by name *)

Definition named (name : string) (c : cookie) : bool := String.eqb (c_name c) name.

(** The cookies of that name that [document.cookie] serves. *)
Definition served (name : string) (w : env) : list cookie :=
  filter (named name) (filter (live (now w)) (jar w)).

(** The value of the one cookie of that name, if there is exactly one. *)
Definition sole_value (name : string) (w : env) : option string :=
  match served name w with
  | [c] => Some (c_value c)
  | _ => None
  end.

(** Names and values that the cookie store keeps as they are written. *)
Definition cookie_name_ok (n : string) : bool :=
  lacks ";" n && lacks "=" n && String.eqb (trim n) n && negb (String.eqb n "").

Definition cookie_value_ok (v : string) : bool :=
  lacks ";" v && String.eqb (trim v) v.

(** The expiry date [setCookie] writes at time [t] for [days] days. *)
Definition expiry (t days : Z) : Z := whole_seconds (t + days * 24 * 60 * 60 * 1000).

(** The index points at one of the messages. *)
Definition index_ok (c : config) : Prop :=
  0 <= currentIndex (fst c) < totalMessages (fst c).

(** The timer the component holds, as the browser lists it. *)
Definition own_timer (s : state) : list (positive * Z) :=
  match intervalId s with
  | Some id => [(id, rotationSpeed s)]
  | None => []
  end.

(** The timers installed are the component's own one, if it holds one, and
    those that were there before the component, listed in [w0]. *)
Definition timers_owned (w0 : env) (c : config) : Prop :=
  timers (snd c) = (own_timer (fst c) ++ timers w0)%list /\
  (forall id, intervalId (fst c) = Some id -> (next_timer w0 <= id)%positive) /\
  (next_timer w0 <= next_timer (snd c))%positive.

(** The ids of the installed timers are below [next_timer]. *)
Definition timers_fresh (w : env) : Prop :=
  forall t, In t (timers w) -> (fst t < next_timer w)%positive.

End Announcement.

(* ------------------------------------------------------------------------- *)
(** ** alpineHeader *)

Module Header.

Record state : Type := mkState {
  mobileMenuOpen : bool;
  isSticky : bool;
  stickyEnabled : bool;
  headerOffsetTop : Z
}.

Definition create (stickyEnabled : bool) : state := mkState false false stickyEnabled 0.

Record env : Type := mkEnv {
  pageYOffset : Z;                  (* window.pageYOffset *)
  documentElement_scrollTop : Z;    (* document.documentElement.scrollTop *)
  header_offsetTop : Z;             (* $refs.header.offsetTop *)
  scroll_listener : bool;           (* the scroll listener of init is installed *)
  body_overflow : string            (* document.body.style.overflow *)
}.

Definition config : Type := (state * env)%type.

(** [a || b] on numbers. *)
Definition or_number (a b : Z) : Z := if a =? 0 then b else a.

Definition handleScroll (c : config) : config :=
  let (s, w) := c in
  let scrollTop := or_number (pageYOffset w) (documentElement_scrollTop w) in
  (mkState (mobileMenuOpen s) (scrollTop >=? headerOffsetTop s) (stickyEnabled s)
           (headerOffsetTop s), w).

(** [init]; the [$nextTick] callback that records the header position has run
    by the time the first event is handled.  The Escape-key listener plays no
    part in what follows and is left out. *)
Definition init (c : config) : config :=
  let (s, w) := c in
  (mkState (mobileMenuOpen s) (isSticky s) (stickyEnabled s) (header_offsetTop w),
   if stickyEnabled s
   then mkEnv (pageYOffset w) (documentElement_scrollTop w) (header_offsetTop w) true
              (body_overflow w)
   else w).

Definition set_overflow (v : string) (w : env) : env :=
  mkEnv (pageYOffset w) (documentElement_scrollTop w) (header_offsetTop w)
        (scroll_listener w) v.

Definition toggleMobileMenu (c : config) : config :=
  let (s, w) := c in
  let s1 := mkState (negb (mobileMenuOpen s)) (isSticky s) (stickyEnabled s)
                    (headerOffsetTop s) in
  (s1, if mobileMenuOpen s1 then set_overflow "hidden" w else set_overflow "" w).

Definition closeMobileMenu (c : config) : config :=
  let (s, w) := c in
  (mkState false (isSticky s) (stickyEnabled s) (headerOffsetTop s), set_overflow "" w).

(** The window is scrolled: the two offsets take their new values and the
    scroll event reaches the listener, if there is one. *)
Definition scroll_event (pageY docTop : Z) (c : config) : config :=
  let (s, w) := c in
  let w1 := mkEnv pageY docTop (header_offsetTop w) (scroll_listener w) (body_overflow w) in
  if scroll_listener w1 then handleScroll (s, w1) else (s, w1).

(** The scroll offset as [handleScroll] reads it. *)
Definition scroll_offset (w : env) : Z :=
  or_number (pageYOffset w) (documentElement_scrollTop w).

(** The keydown listener that [init] installs on the document. *)
Definition keydown_event (key : string) (c : config) : config :=
  if String.eqb key "Escape" && mobileMenuOpen (fst c) then closeMobileMenu c else c.

(** *** Runs, after [init] *)

Inductive event : Type :=
| EvScroll (pageY docTop : Z)
| EvToggleMobileMenu
| EvCloseMobileMenu
| EvKeydown (key : string).

Definition handle (e : event) (c : config) : config :=
  match e with
  | EvScroll pageY docTop => scroll_event pageY docTop c
  | EvToggleMobileMenu => toggleMobileMenu c
  | EvCloseMobileMenu => closeMobileMenu c
  | EvKeydown k => keydown_event k c
  end.

Definition run (evs : list event) (c : config) : config :=
  fold_left (fun c e => handle e c) evs c.

(** The scroll offset of the last scroll event of a trace, as [handleScroll]
    reads it. *)
Fixpoint last_scroll (evs : list event) (before : option Z) : option Z :=
  match evs with
  | [] => before
  | EvScroll pageY docTop :: evs' => last_scroll evs' (Some (or_number pageY docTop))
  | _ :: evs' => last_scroll evs' before
  end.

(** The menu is open exactly when the page is scroll-locked. *)
Definition lock_agrees (c : config) : Prop :=
  (mobileMenuOpen (fst c) = true -> body_overflow (snd c) = "hidden") /\
  (mobileMenuOpen (fst c) = false -> body_overflow (snd c) = "").

End Header.

(* ------------------------------------------------------------------------- *)
(** ** mobileMenu *)

Module MobileMenu.

Record state : Type := mkState {
  isOpen : bool
}.

Definition initial : state := mkState false.

(** The width of the document element depends on the layout, and the layout
    on the body's overflow style (a scroll-locked page may lose its scrollbar):
    [clientWidth] is the width under a given overflow value. *)
Record env : Type := mkEnv {
  body_overflow : string;         (* document.body.style.overflow *)
  body_paddingRight : string;     (* document.body.style.paddingRight *)
  innerWidth : Z;                 (* window.innerWidth *)
  clientWidth : string -> Z       (* document.documentElement.clientWidth *)
}.

Definition config : Type := (state * env)%type.

Definition getScrollbarWidth (w : env) : Z :=
  innerWidth w - clientWidth w (body_overflow w).

(** Assigning [n + 'px'] to [style.paddingRight]: a negative length is not a
    padding, and the style keeps its value. *)
Definition set_paddingRight_px (n : Z) (w : env) : env :=
  if n <? 0 then w
  else mkEnv (body_overflow w) (string_of_Z n ++ "px") (innerWidth w) (clientWidth w).

Definition set_overflow (v : string) (w : env) : env :=
  mkEnv v (body_paddingRight w) (innerWidth w) (clientWidth w).

Definition clear_paddingRight (w : env) : env :=
  mkEnv (body_overflow w) "" (innerWidth w) (clientWidth w).

(** [open]: the scrollbar width is measured after the overflow is set. *)
Definition open (c : config) : config :=
  let (s, w) := c in
  let w1 := set_overflow "hidden" w in
  (mkState true, set_paddingRight_px (getScrollbarWidth w1) w1).

Definition close (c : config) : config :=
  let (s, w) := c in
  (mkState false, clear_paddingRight (set_overflow "" w)).

Definition toggle (c : config) : config :=
  if isOpen (fst c) then close c else open c.

Definition handleEscape (key : string) (c : config) : config :=
  if String.eqb key "Escape" && isOpen (fst c) then close c else c.

Inductive op : Type :=
| OpOpen
| OpClose
| OpToggle
| OpHandleEscape (key : string).

Definition step (o : op) (c : config) : config :=
  match o with
  | OpOpen => open c
  | OpClose => close c
  | OpToggle => toggle c
  | OpHandleEscape k => handleEscape k c
  end.

Definition run (ops : list op) (c : config) : config :=
  fold_left (fun c o => step o c) ops c.

(** Open: the page is scroll-locked and padded by the scrollbar width of the
    locked page.  Closed: both styles are empty. *)
Definition styles_agree (c : config) : Prop :=
  (isOpen (fst c) = true ->
     body_overflow (snd c) = "hidden" /\
     body_paddingRight (snd c)
     = string_of_Z (innerWidth (snd c) - clientWidth (snd c) "hidden") ++ "px") /\
  (isOpen (fst c) = false ->
     body_overflow (snd c) = "" /\ body_paddingRight (snd c) = "").

End MobileMenu.

(* ------------------------------------------------------------------------- *)
(** ** alpineAnnouncement, as shipped next to alpineHeader *)

(** The second copy of the announcement component: no pause, no [previous],
    no [goTo], no keyboard.  Its [getCookie] and [setCookie] are the same
    text as in the first copy and are shared with it, as is the browser. *)
Module AnnouncementBasic.

Record state : Type := mkState {
  currentIndex : Z;
  totalMessages : Z;
  rotationSpeed : Z;
  intervalId : option positive;
  isClosed : bool;
  sectionId : string;
  showCloseButton : bool
}.

Definition config : Type := (state * Announcement.env)%type.

Definition create (totalMessages rotationSpeed : Z) (sectionId : string)
           (showCloseButton : bool) : state :=
  mkState 0 totalMessages rotationSpeed None false sectionId showCloseButton.

Definition set_currentIndex (i : Z) (s : state) : state :=
  mkState i (totalMessages s) (rotationSpeed s) (intervalId s) (isClosed s)
          (sectionId s) (showCloseButton s).
Definition set_intervalId (t : option positive) (s : state) : state :=
  mkState (currentIndex s) (totalMessages s) (rotationSpeed s) t (isClosed s)
          (sectionId s) (showCloseButton s).
Definition set_isClosed (b : bool) (s : state) : state :=
  mkState (currentIndex s) (totalMessages s) (rotationSpeed s) (intervalId s) b
          (sectionId s) (showCloseButton s).

Definition closed_cookie_name (s : state) : string :=
  "announcement-" ++ sectionId s ++ "-closed".

Definition next (s : state) : state :=
  set_currentIndex (Z.rem (currentIndex s + 1) (totalMessages s)) s.

Definition startRotation (c : config) : config :=
  let (s, w) := c in
  let w1 := match intervalId s with
            | Some id => Announcement.clearInterval id w
            | None => w
            end in
  let (id, w2) := Announcement.setInterval (rotationSpeed s) w1 in
  (set_intervalId (Some id) s, Announcement.record_call Announcement.CallStart w2).

Definition stopRotation (c : config) : config :=
  let (s, w) := c in
  match intervalId s with
  | Some id => (set_intervalId None s,
                Announcement.record_call Announcement.CallStop
                  (Announcement.clearInterval id w))
  | None => (s, Announcement.record_call Announcement.CallStop w)
  end.

Definition init (c : config) : config :=
  let (s, w) := c in
  let s1 := if showCloseButton s
            then set_isClosed
                   (Announcement.strict_eq
                      (Announcement.getCookie (closed_cookie_name s) w) "true") s
            else s in
  if negb (isClosed s1) && (1 <? totalMessages s1)
  then startRotation (s1, w)
  else (s1, w).

Definition closeAnnouncement (c : config) : config :=
  let (s, w) := c in
  let (s1, w1) := stopRotation (set_isClosed true s, w) in
  (s1, Announcement.setCookie (closed_cookie_name s1) "true" 30 w1).

Definition destroy (c : config) : config := stopRotation c.

(** The interval [id] comes due: its callback, [next], runs if the timer is
    live. *)
Definition fire (id : positive) (c : config) : config :=
  let (s, w) := c in
  if existsb (fun t => Pos.eqb (fst t) id) (Announcement.timers w)
  then (next s, w)
  else c.

Inductive op : Type :=
| OpInit | OpStartRotation | OpStopRotation | OpNext | OpCloseAnnouncement | OpDestroy
| OpFire (id : positive).

Definition step (o : op) (c : config) : config :=
  match o with
  | OpInit => init c
  | OpStartRotation => startRotation c
  | OpStopRotation => stopRotation c
  | OpNext => (next (fst c), snd c)
  | OpCloseAnnouncement => closeAnnouncement c
  | OpDestroy => destroy c
  | OpFire id => fire id c
  end.

Definition run (ops : list op) (c : config) : config :=
  fold_left (fun c o => step o c) ops c.

(** The same call on the first copy. *)
Definition on_full (o : op) : Announcement.action :=
  match o with
  | OpInit => Announcement.Call Announcement.OpInit
  | OpStartRotation => Announcement.Call Announcement.OpStartRotation
  | OpStopRotation => Announcement.Call Announcement.OpStopRotation
  | OpNext => Announcement.Call Announcement.OpNext
  | OpCloseAnnouncement => Announcement.Call Announcement.OpCloseAnnouncement
  | OpDestroy => Announcement.Call Announcement.OpDestroy
  | OpFire id => Announcement.Fire id
  end.

(** A state of the first copy, without its pause flag. *)
Definition forget (s : Announcement.state) : state :=
  mkState (Announcement.currentIndex s) (Announcement.totalMessages s)
          (Announcement.rotationSpeed s) (Announcement.intervalId s)
          (Announcement.isClosed s) (Announcement.sectionId s)
          (Announcement.showCloseButton s).

(** Two browsers that differ at most in the key listeners installed. *)
Definition same_browser (w1 w2 : Announcement.env) : Prop :=
  Announcement.now w1 = Announcement.now w2 /\
  Announcement.jar w1 = Announcement.jar w2 /\
  Announcement.timers w1 = Announcement.timers w2 /\
  Announcement.next_timer w1 = Announcement.next_timer w2 /\
  Announcement.history w1 = Announcement.history w2.

(** The first copy, never paused, and the second copy in step. *)
Definition in_step (c : Announcement.config) (c' : config) : Prop :=
  forget (fst c) = fst c' /\ same_browser (snd c) (snd c') /\
  Announcement.isPaused (fst c) = false.

End AnnouncementBasic.

(* ------------------------------------------------------------------------- *)
(** ** Predicates used in the statements *)

(** What the cycling property asks of the index after [k] calls of [next]:
    it stays in [0, total), is 0 after [total] calls, and is not 0 after
    fewer calls. *)
Definition cycles_through (total : Z) (index_after : nat -> Z) : Prop :=
  (forall k, Z.of_nat k <= total -> 0 <= index_after k < total) /\
  index_after (Z.to_nat total) = 0 /\
  (forall k, 0 < Z.of_nat k < total -> index_after k <> 0).

(** ["; " ++ document.cookie], cookie by cookie. *)
Definition glue (l : list string) : string :=
  fold_right (fun y acc => "; " ++ y ++ acc) "" l.

(* ========================================================================= *)
(** * Properties *)

(* ------------------------------------------------------------------------- *)
(** ** cartDrawer: the loading flag *)

Section CartDrawerFacts.
Import CartDrawer.

(** A call is its start, what happens meanwhile, and its resumption. *)
Lemma refreshCart_unfold (between : list event) (r : fetch_result) (c : config) :
  refreshCart between r c
  = refreshCart_resume r (run between (after refreshCart_start c)).
Proof. reflexivity. Qed.

Lemma updateQuantity_unfold (k : string) (q : Z) (between : list event)
      (r : fetch_result) (c : config) :
  updateQuantity k q between r c
  = updateQuantity_resume r (run between (after (updateQuantity_start k q) c)).
Proof. reflexivity. Qed.

(** C9. Once [refreshCart] or [updateQuantity] has run to completion,
    [isLoading] is false, whatever the network outcome and whatever other
    handlers ran while the call was suspended; this holds for the continuation
    resumed in any configuration. *)
Theorem isLoading_reset (r : fetch_result) (c : config) :
  (forall between, isLoading (fst (after (refreshCart between r) c)) = false) /\
  (forall k q between,
     isLoading (fst (after (updateQuantity k q between r) c)) = false) /\
  isLoading (fst (after (refreshCart_resume r) c)) = false /\
  isLoading (fst (after (updateQuantity_resume r) c)) = false /\
  completes (refreshCart_resume r) c /\ completes (updateQuantity_resume r) c.
Proof.
  assert (H1 : forall x, isLoading (fst (after (refreshCart_resume r) x)) = false).
  { intros x. unfold after, refreshCart_resume, try_catch_finally, bind, on_state,
      console_error, modify.
    destruct (await_json r x) as [[j|e] c1]; reflexivity. }
  assert (H2 : forall x, isLoading (fst (after (updateQuantity_resume r) x)) = false).
  { intros x. unfold after, updateQuantity_resume, try_catch_finally, bind, on_state,
      console_error, dispatchEvent, modify.
    destruct (await_json r x) as [[j|e] c1]; reflexivity. }
  repeat split.
  - intros between. unfold after. rewrite refreshCart_unfold. apply H1.
  - intros k q between. unfold after. rewrite updateQuantity_unfold. apply H2.
  - apply H1.
  - apply H2.
  - exists tt. unfold refreshCart_resume, try_catch_finally, bind, on_state,
      console_error, modify.
    destruct (await_json r c) as [[j|e] c1]; reflexivity.
  - exists tt. unfold updateQuantity_resume, try_catch_finally, bind, on_state,
      console_error, dispatchEvent, modify.
    destruct (await_json r c) as [[j|e] c1]; reflexivity.
Qed.

End CartDrawerFacts.

(* ------------------------------------------------------------------------- *)
(** ** Index cycling in the gallery and in the rotator *)

Lemma gallery_next_counts (images : list json) (k : nat) :
  Z.of_nat k < Z.of_nat (List.length images) ->
  Nat.iter k ProductGallery.next (ProductGallery.create images)
  = ProductGallery.mkState (Z.of_nat k) images.
Proof.
  induction k as [|k IH]; intros Hk.
  - reflexivity.
  - rewrite Nat.iter_succ. rewrite IH by lia.
    unfold ProductGallery.next, ProductGallery.isLast, ProductGallery.length,
      ProductGallery.set_currentIndex.
    cbn [ProductGallery.currentIndex ProductGallery.images].
    destruct (Z.eqb_spec (Z.of_nat k) (Z.of_nat (List.length images) - 1)) as [E|E];
      [lia|].
    cbn [negb]. f_equal. lia.
Qed.

Lemma gallery_next_wraps (images : list json) :
  images <> [] ->
  Nat.iter (List.length images) ProductGallery.next (ProductGallery.create images)
  = ProductGallery.create images.
Proof.
  intros Hne. destruct images as [|x l]; [congruence|].
  cbn [List.length]. rewrite Nat.iter_succ.
  rewrite (gallery_next_counts (x :: l) (List.length l)) by (cbn [List.length]; lia).
  unfold ProductGallery.next, ProductGallery.isLast, ProductGallery.length,
    ProductGallery.set_currentIndex, ProductGallery.create.
  cbn [ProductGallery.currentIndex ProductGallery.images List.length].
  destruct (Z.eqb_spec (Z.of_nat (List.length l)) (Z.of_nat (S (List.length l)) - 1));
    [reflexivity | lia].
Qed.

Lemma rotator_next_counts (s : Announcement.state) (k : nat) :
  Announcement.currentIndex s = 0 ->
  Z.of_nat k < Announcement.totalMessages s ->
  Nat.iter k Announcement.next s = Announcement.set_currentIndex (Z.of_nat k) s.
Proof.
  intros H0. induction k as [|k IH]; intros Hk.
  - cbn [Nat.iter]. destruct s; cbn in *. subst. reflexivity.
  - rewrite Nat.iter_succ. rewrite IH by lia.
    unfold Announcement.next, Announcement.set_currentIndex. cbn.
    rewrite Z.rem_small by lia. f_equal. lia.
Qed.

Lemma rotator_next_wraps (s : Announcement.state) :
  Announcement.currentIndex s = 0 ->
  1 <= Announcement.totalMessages s ->
  Nat.iter (Z.to_nat (Announcement.totalMessages s)) Announcement.next s = s.
Proof.
  intros H0 H1.
  replace (Z.to_nat (Announcement.totalMessages s))
    with (S (Z.to_nat (Announcement.totalMessages s - 1))) by lia.
  rewrite Nat.iter_succ. rewrite rotator_next_counts by (trivial; lia).
  unfold Announcement.next, Announcement.set_currentIndex. cbn.
  replace (Z.of_nat (Z.to_nat (Announcement.totalMessages s - 1)) + 1)
    with (Announcement.totalMessages s) by lia.
  rewrite Z.rem_same by lia.
  destruct s; cbn in *. subst. reflexivity.
Qed.

(** C3. For every [total >= 1], starting from index 0, [total] calls of
    [next] keep the index in [0, total), bring it back to 0 at the last call
    and at no earlier one; in the announcement rotator with
    [totalMessages = total] and in the product gallery with
    [images.length = total]. *)
Theorem next_cycles (total : Z) (s : Announcement.state) (images : list json) :
  1 <= total ->
  Announcement.totalMessages s = total ->
  Announcement.currentIndex s = 0 ->
  ProductGallery.length (ProductGallery.create images) = total ->
  cycles_through total
    (fun k => Announcement.currentIndex (Nat.iter k Announcement.next s)) /\
  cycles_through total
    (fun k => ProductGallery.currentIndex
                (Nat.iter k ProductGallery.next (ProductGallery.create images))).
Proof.
  intros Ht Htot H0 Hlen. unfold ProductGallery.length in Hlen. cbn in Hlen.
  split; unfold cycles_through; repeat split.
  - destruct (Z.eq_dec (Z.of_nat k) total) as [E|E].
    + replace k with (Z.to_nat (Announcement.totalMessages s)) by lia.
      rewrite rotator_next_wraps by lia. lia.
    + rewrite rotator_next_counts by lia. cbn. lia.
  - destruct (Z.eq_dec (Z.of_nat k) total) as [E|E].
    + replace k with (Z.to_nat (Announcement.totalMessages s)) by lia.
      rewrite rotator_next_wraps by lia. lia.
    + rewrite rotator_next_counts by lia. cbn. lia.
  - subst total. rewrite rotator_next_wraps by lia. exact H0.
  - intros k Hk. rewrite rotator_next_counts by lia. cbn. lia.
  - destruct (Z.eq_dec (Z.of_nat k) total) as [E|E].
    + replace k with (List.length images) by lia.
      rewrite gallery_next_wraps by (destruct images; cbn in *; [lia|congruence]).
      cbn. lia.
    + rewrite gallery_next_counts by lia. cbn. lia.
  - destruct (Z.eq_dec (Z.of_nat k) total) as [E|E].
    + replace k with (List.length images) by lia.
      rewrite gallery_next_wraps by (destruct images; cbn in *; [lia|congruence]).
      cbn. lia.
    + rewrite gallery_next_counts by lia. cbn. lia.
  - replace (Z.to_nat total) with (List.length images) by lia.
    rewrite gallery_next_wraps by (destruct images; cbn in *; [lia|congruence]).
    reflexivity.
  - intros k Hk. rewrite gallery_next_counts by lia. cbn. lia.
Qed.

Lemma next_cycles_witness :
  cycles_through 3
    (fun k => Announcement.currentIndex
                (Nat.iter k Announcement.next (Announcement.create 3 5000 "bar" true))) /\
  cycles_through 3
    (fun k => ProductGallery.currentIndex
                (Nat.iter k ProductGallery.next
                   (ProductGallery.create [JStr "a.jpg"; JStr "b.jpg"; JStr "c.jpg"]))).
Proof.
  apply (next_cycles 3); [lia | reflexivity | reflexivity | reflexivity].
Defined.

(* ------------------------------------------------------------------------- *)
(** ** Direct navigation *)

(** C4. [goTo(i)] with [i < 0] or [i >= total] changes nothing, in the gallery
    ([total = images.length]) and in the rotator ([total = totalMessages]),
    where both bounds are checked; with [0 <= i < total] it sets
    [currentIndex] to [i].  Being functions, both always return. *)
Theorem goTo_bounds (i : Z) (g : ProductGallery.state) (c : Announcement.config) :
  (i < 0 \/ ProductGallery.length g <= i -> ProductGallery.goTo i g = g) /\
  (0 <= i < ProductGallery.length g ->
     ProductGallery.currentIndex (ProductGallery.goTo i g) = i) /\
  (i < 0 \/ Announcement.totalMessages (fst c) <= i -> Announcement.goTo i c = c) /\
  (0 <= i < Announcement.totalMessages (fst c) ->
     Announcement.currentIndex (fst (Announcement.goTo i c)) = i).
Proof.
  destruct c as [s w]. cbn [fst].
  unfold ProductGallery.goTo, Announcement.goTo.
  repeat split; intros H.
  - destruct (Z.leb_spec 0 i), (Z.ltb_spec i (ProductGallery.length g));
      cbn [andb]; try reflexivity; lia.
  - destruct (Z.leb_spec 0 i), (Z.ltb_spec i (ProductGallery.length g));
      cbn [andb]; try lia. reflexivity.
  - destruct (Z.leb_spec 0 i), (Z.ltb_spec i (Announcement.totalMessages s));
      cbn [andb]; try reflexivity; lia.
  - destruct (Z.leb_spec 0 i), (Z.ltb_spec i (Announcement.totalMessages s));
      cbn [andb]; try lia.
    cbn [Announcement.set_currentIndex Announcement.totalMessages].
    destruct (1 <? Announcement.totalMessages s); [|reflexivity].
    unfold Announcement.stopRotation, Announcement.startRotation,
      Announcement.setInterval, Announcement.set_currentIndex.
    cbn [Announcement.intervalId].
    destruct (Announcement.intervalId s); reflexivity.
Qed.

Lemma goTo_bounds_witness :
  let g := ProductGallery.mkState 1 [JStr "a.jpg"; JStr "b.jpg"] in
  let c := (Announcement.create 3 5000 "bar" true,
            Announcement.mkEnv 0 [] [] 1%positive 0 []) in
  ProductGallery.goTo 5 g = g /\ Announcement.goTo 5 c = c.
Proof.
  cbv zeta. split.
  - apply (goTo_bounds 5 (ProductGallery.mkState 1 [JStr "a.jpg"; JStr "b.jpg"])
             (Announcement.create 3 5000 "bar" true,
              Announcement.mkEnv 0 [] [] 1%positive 0 [])).
    right. vm_compute. discriminate.
  - apply (goTo_bounds 5 (ProductGallery.mkState 1 [JStr "a.jpg"; JStr "b.jpg"])
             (Announcement.create 3 5000 "bar" true,
              Announcement.mkEnv 0 [] [] 1%positive 0 [])).
    right. vm_compute. discriminate.
Defined.

(* ------------------------------------------------------------------------- *)
(** ** The gallery's current image *)

(** C10 as stated: an image reference that is the empty string sits at
    index 0, within bounds, and [currentImage] is null, not that element. *)
Lemma currentImage_falsy_element : ~ ProductGallery.currentImage_is_element.
Proof.
  intros H.
  destruct (H (ProductGallery.create [JStr ""])) as [Hin _].
  assert (Hb : 0 <= ProductGallery.currentIndex (ProductGallery.create [JStr ""])
               < ProductGallery.length (ProductGallery.create [JStr ""]))
    by (vm_compute; split; [discriminate | reflexivity]).
  specialize (Hin Hb). vm_compute in Hin. discriminate.
Qed.

Lemma element_in_bounds (a : list json) (i : Z) :
  0 <= i < Z.of_nat (List.length a) ->
  exists v, nth_error a (Z.to_nat i) = Some v /\ ProductGallery.element a i = Some v.
Proof.
  intros H. unfold ProductGallery.element.
  destruct (Z.ltb_spec i 0); [lia|].
  destruct (nth_error a (Z.to_nat i)) as [v|] eqn:E.
  - exists v. split; reflexivity.
  - apply nth_error_None in E. lia.
Qed.

Lemma element_out_of_bounds (a : list json) (i : Z) :
  i < 0 \/ Z.of_nat (List.length a) <= i -> ProductGallery.element a i = None.
Proof.
  intros H. unfold ProductGallery.element.
  destruct (Z.ltb_spec i 0); [reflexivity|].
  apply nth_error_None. lia.
Qed.

(** C10, as the code has it.  [currentImage] is a total function of the
    images array and the index: with the index within bounds it is the element
    there if that element is truthy and null if it is falsy; with the index
    out of bounds, in particular for an empty array, it is null. *)
Theorem currentImage_total (g : ProductGallery.state) :
  (0 <= ProductGallery.currentIndex g < ProductGallery.length g ->
     exists v,
       nth_error (ProductGallery.images g) (Z.to_nat (ProductGallery.currentIndex g))
       = Some v /\
       ProductGallery.currentImage g = (if truthy v then v else JNull)) /\
  (ProductGallery.currentIndex g < 0 \/
   ProductGallery.length g <= ProductGallery.currentIndex g ->
     ProductGallery.currentImage g = JNull) /\
  (ProductGallery.images g = [] -> ProductGallery.currentImage g = JNull).
Proof.
  unfold ProductGallery.currentImage, ProductGallery.length. repeat split.
  - intros H. destruct (element_in_bounds _ _ H) as (v & Hn & He).
    exists v. rewrite He. split; [exact Hn | reflexivity].
  - intros H. rewrite element_out_of_bounds by exact H. reflexivity.
  - intros H. rewrite H. unfold ProductGallery.element.
    destruct (ProductGallery.currentIndex g <? 0); [reflexivity|].
    destruct (Z.to_nat (ProductGallery.currentIndex g)); reflexivity.
Qed.

Lemma currentImage_total_witness :
  ProductGallery.currentImage (ProductGallery.mkState 7 [JStr "a.jpg"; JStr "b.jpg"]) = JNull.
Proof.
  apply (proj1 (proj2 (currentImage_total
                         (ProductGallery.mkState 7 [JStr "a.jpg"; JStr "b.jpg"])))).
  right. vm_compute. discriminate.
Defined.

(* ------------------------------------------------------------------------- *)
(** ** The sticky header *)

(** C8. With [stickyEnabled], after [init] a scroll event leaves [isSticky]
    true exactly when the scroll offset is at least the recorded
    [headerOffsetTop]; with the header at 200, scrolling to 199 gives false
    and scrolling to 200 gives true. *)
Theorem handleScroll_sticky (s : Header.state) (w : Header.env) (pageY docTop : Z) :
  Header.stickyEnabled s = true ->
  let c := Header.scroll_event pageY docTop (Header.init (s, w)) in
  Header.headerOffsetTop (fst c) = Header.header_offsetTop w /\
  (Header.isSticky (fst c) = true <->
     Header.scroll_offset (snd c) >= Header.headerOffsetTop (fst c)) /\
  (docTop = pageY ->
     (Header.isSticky (fst c) = true <-> pageY >= Header.header_offsetTop w)) /\
  (Header.header_offsetTop w = 200 -> pageY = 199 -> Header.isSticky (fst c) = false) /\
  (Header.header_offsetTop w = 200 -> pageY = 200 -> Header.isSticky (fst c) = true).
Proof.
  intros Hs. unfold Header.scroll_event, Header.init, Header.handleScroll,
    Header.scroll_offset, Header.or_number.
  rewrite Hs. cbn. repeat split.
  - intros H. apply Z.geb_le in H. lia.
  - intros H. apply Z.geb_le. lia.
  - subst docTop. destruct (pageY =? 0); intros H; apply Z.geb_le in H; lia.
  - subst docTop. destruct (pageY =? 0); intros H; apply Z.geb_le; lia.
  - intros H -> . rewrite H. reflexivity.
  - intros H -> . rewrite H. reflexivity.
Qed.

Lemma handleScroll_sticky_witness :
  let w := Header.mkEnv 0 0 200 false "" in
  Header.isSticky (fst (Header.scroll_event 199 199 (Header.init (Header.create true, w))))
  = false /\
  Header.isSticky (fst (Header.scroll_event 200 200 (Header.init (Header.create true, w))))
  = true.
Proof.
  cbv zeta. split.
  - apply (handleScroll_sticky (Header.create true) (Header.mkEnv 0 0 200 false "") 199 199);
      reflexivity.
  - apply (handleScroll_sticky (Header.create true) (Header.mkEnv 0 0 200 false "") 200 200);
      reflexivity.
Defined.

(* ------------------------------------------------------------------------- *)
(** ** The rotation timer *)

Section RotatorFacts.
Import Announcement.


Lemma stopRotation_fields (c : config) :
  let c' := stopRotation c in
  intervalId (fst c') = None /\
  manually_stopped (snd c') = true /\
  isClosed (fst c') = isClosed (fst c) /\
  totalMessages (fst c') = totalMessages (fst c) /\
  currentIndex (fst c') = currentIndex (fst c) /\
  sectionId (fst c') = sectionId (fst c) /\
  showCloseButton (fst c') = showCloseButton (fst c) /\
  now (snd c') = now (snd c) /\ jar (snd c') = jar (snd c) /\
  next_timer (snd c') = next_timer (snd c).
Proof.
  destruct c as [s w]. unfold stopRotation, manually_stopped.
  destruct (intervalId s) as [id|] eqn:E; cbn; repeat split; exact E.
Qed.

(** C6. While [isPaused] is true a firing of the interval changes nothing:
    [currentIndex] stays, [intervalId] is not cleared and the timer stays
    installed.  [pauseRotation] itself only sets the flag.  After
    [resumeRotation], a firing of the live interval moves [currentIndex] to
    [(currentIndex + 1) % totalMessages], which differs from the index before
    whenever there is more than one message. *)
Theorem paused_tick_is_skipped (c : config) (id : positive) :
  (isPaused (fst c) = true -> fire id c = c) /\
  (let p := on_state pauseRotation c in
   fire id p = p /\
   currentIndex (fst p) = currentIndex (fst c) /\
   intervalId (fst p) = intervalId (fst c) /\
   timers (snd p) = timers (snd c)) /\
  (existsb (fun t => Pos.eqb (fst t) id) (timers (snd c)) = true ->
   let r := fire id (on_state resumeRotation c) in
   currentIndex (fst r) = Z.rem (currentIndex (fst c) + 1) (totalMessages (fst c)) /\
   intervalId (fst r) = intervalId (fst c) /\
   timers (snd r) = timers (snd c) /\
   (1 < totalMessages (fst c) ->
    0 <= currentIndex (fst c) < totalMessages (fst c) ->
    currentIndex (fst r) <> currentIndex (fst c))).
Proof.
  destruct c as [s w]. cbn [fst snd on_state]. repeat split.
  - intros Hp. unfold fire, interval_callback. rewrite Hp. cbn.
    destruct (existsb _ _); reflexivity.
  - unfold fire, interval_callback, pauseRotation, on_state. cbn.
    destruct (existsb _ _); reflexivity.
  - unfold fire, interval_callback, resumeRotation, on_state. cbn [fst snd].
    rewrite H. reflexivity.
  - unfold fire, interval_callback, resumeRotation, on_state. cbn [fst snd].
    rewrite H. reflexivity.
  - unfold fire, interval_callback, resumeRotation, on_state. cbn [fst snd].
    rewrite H. reflexivity.
  - unfold fire, interval_callback, resumeRotation, on_state. cbn [fst snd].
    rewrite H. cbn.
    intros Ht Hi.
    destruct (Z.eq_dec (currentIndex s + 1) (totalMessages s)) as [E|E].
    + rewrite E, Z.rem_same by lia. lia.
    + rewrite Z.rem_small by lia. lia.
Qed.

Lemma paused_tick_is_skipped_witness :
  let c := startRotation (create 3 5000 "bar" true, mkEnv 0 [] [] 1%positive 0 []) in
  fire 1%positive (on_state pauseRotation c) = on_state pauseRotation c /\
  currentIndex (fst (fire 1%positive (on_state resumeRotation (on_state pauseRotation c))))
  = 1.
Proof.
  cbv zeta. split.
  - apply (paused_tick_is_skipped
             (startRotation (create 3 5000 "bar" true, mkEnv 0 [] [] 1%positive 0 []))
             1%positive).
  - apply (proj2 (proj2 (paused_tick_is_skipped
             (on_state pauseRotation
                (startRotation (create 3 5000 "bar" true, mkEnv 0 [] [] 1%positive 0 [])))
             1%positive))).
    reflexivity.
Defined.

(** *** The RotationState invariant *)


Lemma getCookie_ext (name : string) (w1 w2 : env) :
  now w1 = now w2 -> jar w1 = jar w2 -> getCookie name w1 = getCookie name w2.
Proof.
  intros Hn Hj. unfold getCookie, document_cookie. rewrite Hn, Hj. reflexivity.
Qed.

Lemma closed_cookie_name_ext (s1 s2 : state) :
  sectionId s1 = sectionId s2 -> closed_cookie_name s1 = closed_cookie_name s2.
Proof. unfold closed_cookie_name. intros ->. reflexivity. Qed.





End RotatorFacts.

(* ------------------------------------------------------------------------- *)
(** ** Strings: cutting and trimming *)

Section StringFacts.

Lemma append_assoc (a b c : string) : (a ++ b) ++ c = a ++ (b ++ c).
Proof. induction a as [|x a IH]; cbn; [reflexivity | now rewrite IH]. Qed.

Lemma append_nil_r (a : string) : a ++ "" = a.
Proof. induction a as [|x a IH]; cbn; [reflexivity | now rewrite IH]. Qed.

Lemma lacks_app (c : ascii) (a b : string) :
  lacks c (a ++ b) = lacks c a && lacks c b.
Proof.
  induction a as [|x a IH]; cbn; [reflexivity|].
  rewrite IH. now rewrite andb_assoc.
Qed.

Lemma strip_prefix_app (p s : string) : strip_prefix p (p ++ s) = Some s.
Proof.
  induction p as [|x p IH]; cbn; [reflexivity|].
  now rewrite Ascii.eqb_refl.
Qed.

(** A separator starting with [c] is found in [a ++ r] where it is found in
    [r], when [c] does not occur in [a]. *)
Lemma find_first_skip (c : ascii) (sep' a r : string) :
  lacks c a = true ->
  find_first (String c sep') (a ++ r)
  = match find_first (String c sep') r with
    | Some (x, y) => Some (a ++ x, y)
    | None => None
    end.
Proof.
  induction a as [|x a IH]; intros Ha.
  - cbn [append]. destruct (find_first (String c sep') r) as [[u v]|]; reflexivity.
  - cbn [lacks] in Ha. apply andb_prop in Ha. destruct Ha as [Hx Ha].
    apply negb_true_iff in Hx.
    cbn [append find_first strip_prefix].
    rewrite Ascii.eqb_sym, Hx.
    fold (find_first (String c sep') (a ++ r)). rewrite (IH Ha).
    destruct (find_first (String c sep') r) as [[u v]|]; reflexivity.
Qed.

Lemma find_first_char (c : ascii) (a b : string) :
  lacks c a = true -> find_first (String c "") (a ++ String c b) = Some (a, b).
Proof.
  intros Ha. rewrite find_first_skip by exact Ha.
  cbn. rewrite Ascii.eqb_refl. now rewrite append_nil_r.
Qed.

Lemma find_first_absent (c : ascii) (sep' a : string) :
  lacks c a = true -> find_first (String c sep') a = None.
Proof.
  intros Ha. rewrite <- (append_nil_r a). rewrite find_first_skip by exact Ha.
  reflexivity.
Qed.

Lemma trim_right_app (a b : string) :
  trim_right b <> "" -> trim_right (a ++ b) = a ++ trim_right b.
Proof.
  intros Hb. induction a as [|x a IH]; cbn; [reflexivity|].
  rewrite IH. destruct (a ++ trim_right b) eqn:E; [|reflexivity].
  destruct a; cbn in E; [contradiction | discriminate].
Qed.

(** A prefix without [c] that fails on [y] also fails on [y] followed by
    nothing or by a text starting with [c]. *)
Lemma strip_prefix_extend (c : ascii) (p y r : string) :
  lacks c p = true ->
  strip_prefix p y = None ->
  r = "" \/ (exists r', r = String c r') ->
  strip_prefix p (y ++ r) = None.
Proof.
  revert y. induction p as [|a p IH]; intros y Hp Hy Hr.
  - discriminate.
  - cbn [lacks] in Hp. apply andb_prop in Hp. destruct Hp as [Ha Hp].
    apply negb_true_iff in Ha.
    destruct y as [|b y].
    + cbn [append]. destruct Hr as [->|[r' ->]]; cbn; [reflexivity|].
      now rewrite Ha.
    + cbn [append strip_prefix] in *.
      destruct (Ascii.eqb a b); [|reflexivity].
      apply IH; assumption.
Qed.

(** Two names without [=]: if [p=] starts [n=v] then [p] is [n]. *)
Lemma strip_prefix_name (p n v : string) :
  lacks "=" p = true -> lacks "=" n = true ->
  strip_prefix (p ++ "=") (n ++ "=" ++ v) <> None -> p = n.
Proof.
  revert n. induction p as [|a p IH]; intros n Hp Hn H.
  - destruct n as [|b n]; [reflexivity|].
    cbn [lacks] in Hn. apply andb_prop in Hn. destruct Hn as [Hb _].
    apply negb_true_iff in Hb.
    cbn [append strip_prefix] in H. rewrite Ascii.eqb_sym, Hb in H. congruence.
  - cbn [lacks] in Hp. apply andb_prop in Hp. destruct Hp as [Ha Hp].
    apply negb_true_iff in Ha.
    destruct n as [|b n].
    + cbn [append strip_prefix] in H. rewrite Ha in H. congruence.
    + cbn [lacks] in Hn. apply andb_prop in Hn. destruct Hn as [_ Hn].
      cbn [append strip_prefix] in H.
      destruct (Ascii.eqb_spec a b) as [->|]; [|congruence].
      f_equal. apply IH; assumption.
Qed.

Lemma strip_prefix_length (p s rest : string) :
  strip_prefix p s = Some rest ->
  String.length s = (String.length p + String.length rest)%nat.
Proof.
  revert s. induction p as [|a p IH]; intros s H.
  - cbn in H. injection H as ->. reflexivity.
  - destruct s as [|b s]; [discriminate|].
    cbn [strip_prefix] in H. destruct (Ascii.eqb a b); [|discriminate].
    cbn [String.length]. rewrite (IH s H). reflexivity.
Qed.

(** What follows an occurrence of a non-empty separator is shorter than the
    text. *)
Lemma find_first_shorter (c : ascii) (sep' s a b : string) :
  find_first (String c sep') s = Some (a, b) ->
  (String.length b < String.length s)%nat.
Proof.
  revert a. induction s as [|x s IH]; intros a H.
  - discriminate.
  - cbn [find_first] in H.
    destruct (strip_prefix (String c sep') (String x s)) as [rest|] eqn:E.
    + injection H as _ <-. apply strip_prefix_length in E.
      cbn [String.length] in *. lia.
    + destruct (find_first (String c sep') s) as [[u v]|]; [|discriminate].
      injection H as _ <-. specialize (IH u eq_refl). cbn [String.length]. lia.
Qed.

(** The fuel of [split] is enough: more fuel gives the same parts. *)
Lemma split_fuel_enough (c : ascii) (sep' : string) (n : nat) (s : string) :
  (String.length s <= n)%nat ->
  split_fuel n (String c sep') s = split (String c sep') s.
Proof.
  unfold split.
  enough (H : forall n m s, (String.length s <= n)%nat -> (String.length s <= m)%nat ->
                            split_fuel n (String c sep') s = split_fuel m (String c sep') s)
    by (intros Hn; apply H; [exact Hn | apply Nat.le_refl]).
  clear n s. induction n as [|n IH]; intros m s Hn Hm.
  - destruct s; [|cbn in Hn; lia]. destruct m; reflexivity.
  - destruct m as [|m].
    + destruct s; [reflexivity | cbn in Hm; lia].
    + cbn [split_fuel].
      destruct (find_first (String c sep') s) as [[a b]|] eqn:E; [|reflexivity].
      apply find_first_shorter in E. f_equal. apply IH; lia.
Qed.

End StringFacts.

(* ------------------------------------------------------------------------- *)
(** ** Dismissal through the cookie jar *)

Section DismissalFacts.
Import Announcement.

Lemma join_cons (sep y : string) (l : list string) :
  l <> [] -> join sep (y :: l) = y ++ sep ++ join sep l.
Proof. destruct l; [congruence | reflexivity]. Qed.

Lemma glue_cons (y : string) (l : list string) :
  glue (y :: l) = "; " ++ y ++ glue l.
Proof. reflexivity. Qed.

Lemma join_glue (l : list string) (x : string) :
  "; " ++ join "; " (l ++ [x]) = glue l ++ "; " ++ x.
Proof.
  induction l as [|y l IH].
  - reflexivity.
  - cbn [app]. rewrite join_cons by (destruct l; discriminate).
    rewrite glue_cons, !append_assoc, <- IH. reflexivity.
Qed.

Lemma glue_starts (l : list string) (r : string) :
  r = "" \/ (exists r', r = String ";" r') ->
  glue l ++ r = "" \/ (exists r', glue l ++ r = String ";" r').
Proof.
  intros Hr. destruct l as [|y l]; [exact Hr|].
  right. cbn. eexists. reflexivity.
Qed.

(** No cookie text of [l] starts with [name], so the first ["; " ++ name] in
    [glue l ++ r] is the first one in [r]. *)
Lemma find_first_glue (name : string) (l : list string) (r : string) :
  lacks ";" name = true ->
  Forall (fun y => lacks ";" y = true /\ strip_prefix name y = None) l ->
  r = "" \/ (exists r', r = String ";" r') ->
  find_first ("; " ++ name) (glue l ++ r)
  = match find_first ("; " ++ name) r with
    | Some (x, y) => Some (glue l ++ x, y)
    | None => None
    end.
Proof.
  intros Hn Hl Hr. induction Hl as [|y l [Hy1 Hy2] Hl IH].
  - cbn [glue fold_right append].
    destruct (find_first _ r) as [[u v]|]; reflexivity.
  - rewrite glue_cons.
    change ("; " ++ name) with (String ";" (String " " name)) in *.
    replace (("; " ++ y ++ glue l) ++ r)
      with (String ";" (String " " (y ++ (glue l ++ r))))
      by (rewrite !append_assoc; reflexivity).
    cbn [find_first strip_prefix].
    rewrite !Ascii.eqb_refl.
    rewrite (strip_prefix_extend ";" name y (glue l ++ r) Hn Hy2 (glue_starts l r Hr)).
    replace (Ascii.eqb ";" " ") with false by reflexivity.
    fold (find_first (String ";" (String " " name)) (y ++ (glue l ++ r))).
    rewrite (find_first_skip ";" (String " " name) y (glue l ++ r) Hy1).
    rewrite IH.
    destruct (find_first _ r) as [[u v]|]; [|reflexivity].
    cbn [append]. now rewrite !append_assoc.
Qed.

Lemma closed_cookie_name_lacks (c : ascii) (s : state) :
  lacks c "announcement-" = true -> lacks c "-closed" = true ->
  lacks c (sectionId s) = true ->
  lacks c (closed_cookie_name s) = true.
Proof.
  intros H1 H2 H3. unfold closed_cookie_name.
  now rewrite !lacks_app, H1, H2, H3.
Qed.

Lemma closed_cookie_name_trim (s : state) :
  trim (closed_cookie_name s) = closed_cookie_name s.
Proof.
  unfold trim, closed_cookie_name.
  change (trim_left ("announcement-" ++ sectionId s ++ "-closed"))
    with ("announcement-" ++ sectionId s ++ "-closed").
  rewrite <- append_assoc.
  rewrite trim_right_app by (cbn; discriminate).
  reflexivity.
Qed.

Lemma closed_cookie_name_nonempty (s : state) :
  String.eqb (closed_cookie_name s) "" = false.
Proof. reflexivity. Qed.

Lemma whole_seconds_later (t : Z) : (whole_seconds (t + thirty_days) <=? t) = false.
Proof.
  apply Z.leb_gt. unfold whole_seconds, thirty_days.
  pose proof (Z.mul_div_le (t + 30 * 24 * 60 * 60 * 1000) 1000 ltac:(lia)).
  pose proof (Z.mod_pos_bound (t + 30 * 24 * 60 * 60 * 1000) 1000 ltac:(lia)).
  pose proof (Z.div_mod (t + 30 * 24 * 60 * 60 * 1000) 1000 ltac:(lia)).
  lia.
Qed.

(** What [closeAnnouncement] writes: the dismissal cookie takes the place of
    any cookie of that name and path. *)
Lemma setCookie_closed (s : state) (w : env) :
  lacks ";" (sectionId s) = true ->
  lacks "=" (sectionId s) = true ->
  setCookie (closed_cookie_name s) "true" 30 w
  = set_jar (filter (fun c => negb (same_cookie (closed_cookie_name s) "/" c)) (jar w)
               ++ [dismissal_cookie s (now w)])%list w.
Proof.
  intros Hsemi Heq. unfold setCookie, document_cookie_set.
  assert (H1 : find_first ";" (closed_cookie_name s ++ "=" ++ "true") = None).
  { apply find_first_absent. rewrite lacks_app.
    rewrite closed_cookie_name_lacks by (trivial; reflexivity). reflexivity. }
  rewrite H1.
  assert (H2 : find_first "=" (closed_cookie_name s ++ "=" ++ "true")
               = Some (closed_cookie_name s, "true")).
  { apply (find_first_char "=" (closed_cookie_name s) "true").
    apply closed_cookie_name_lacks; trivial; reflexivity. }
  rewrite H2.
  rewrite closed_cookie_name_trim, closed_cookie_name_nonempty.
  change (trim "true") with "true".
  change (now w + 30 * 24 * 60 * 60 * 1000) with (now w + thirty_days).
  rewrite whole_seconds_later. reflexivity.
Qed.

Lemma find_first_unfold (sep s : string) :
  find_first sep s
  = match strip_prefix sep s with
    | Some rest => Some ("", rest)
    | None =>
        match s with
        | EmptyString => None
        | String c s' =>
            match find_first sep s' with
            | Some (a, b) => Some (String c a, b)
            | None => None
            end
        end
    end.
Proof. destruct s; reflexivity. Qed.

Lemma find_first_here (sep s : string) : find_first sep (sep ++ s) = Some ("", s).
Proof. rewrite find_first_unfold, strip_prefix_app. reflexivity. Qed.

(** One occurrence of the separator: two parts. *)
Lemma split_once (c : ascii) (sep' v a b : string) :
  find_first (String c sep') v = Some (a, b) ->
  find_first (String c sep') b = None ->
  split (String c sep') v = [a; b].
Proof.
  intros Hv Hb. unfold split.
  destruct v as [|x v]; [discriminate|].
  cbn [String.length split_fuel]. rewrite Hv.
  destruct (String.length v); cbn [split_fuel]; [reflexivity|].
  now rewrite Hb.
Qed.

(** Reading the dismissal cookie back from a jar that ends with it and holds
    no other cookie of that name. *)
Lemma getCookie_closed (s : state) (w : env) (front : list cookie) (e : Z) :
  lacks ";" (sectionId s) = true ->
  lacks "=" (sectionId s) = true ->
  jar w = (front ++ [mkCookie (closed_cookie_name s) "true" "/" (Some e)])%list ->
  now w < e ->
  Forall (fun c => cookie_ok c = true /\ c_name c <> closed_cookie_name s) front ->
  getCookie (closed_cookie_name s) w = Some "true".
Proof.
  intros Hsemi Heq Hjar Hlive Hfront.
  pose proof (closed_cookie_name_lacks ";" s eq_refl eq_refl Hsemi) as Hn1.
  pose proof (closed_cookie_name_lacks "=" s eq_refl eq_refl Heq) as Hn2.
  set (name := closed_cookie_name s) in *.
  unfold getCookie, document_cookie.
  rewrite Hjar, filter_app, map_app.
  cbn [filter live c_expires]. apply Z.ltb_lt in Hlive. rewrite Hlive.
  cbn [map]. rewrite join_glue.
  set (texts := map cookie_text (filter (live (now w)) front)).
  unfold cookie_text at 1 2. cbn [c_name c_value].
  replace (glue texts ++ "; " ++ name ++ "=" ++ "true")
    with (glue texts ++ ("; " ++ name ++ "=") ++ "true")
    by (now rewrite !append_assoc).
  assert (Htexts : Forall (fun y => lacks ";" y = true /\
                                    strip_prefix (name ++ "=") y = None) texts).
  { subst texts. apply Forall_forall. intros y Hy.
    apply in_map_iff in Hy. destruct Hy as (c & <- & Hc).
    apply filter_In in Hc. destruct Hc as [Hc _].
    rewrite Forall_forall in Hfront. destruct (Hfront c Hc) as [Hok Hne].
    unfold cookie_ok in Hok. apply andb_prop in Hok. destruct Hok as [Hok Hv].
    apply andb_prop in Hok. destruct Hok as [Hc1 Hc2].
    unfold cookie_text. split.
    - now rewrite !lacks_app, Hc1, Hv.
    - destruct (strip_prefix (name ++ "=") (c_name c ++ "=" ++ c_value c)) eqn:E;
        [|reflexivity].
      exfalso. apply Hne. symmetry.
      apply (strip_prefix_name name (c_name c) (c_value c)); trivial. congruence. }
  assert (Hsep : lacks ";" (name ++ "=") = true) by (now rewrite lacks_app, Hn1).
  assert (Hcut : find_first ("; " ++ name ++ "=") (glue texts ++ ("; " ++ name ++ "=") ++ "true")
                 = Some (glue texts ++ "", "true")).
  { rewrite (find_first_glue (name ++ "=") texts (("; " ++ name ++ "=") ++ "true") Hsep Htexts)
      by (right; eexists; reflexivity).
    now rewrite find_first_here. }
  change ("; " ++ name ++ "=") with (String ";" (String " " (name ++ "="))) in *.
  rewrite (split_once ";" (String " " (name ++ "=")) _ _ _ Hcut)
    by (apply find_first_absent; reflexivity).
  reflexivity.
Qed.

(** C5. Dismissal survives a reattach.  The section id holds no [;] and no
    [=], the cookies in scope are well formed and none carries the dismissal
    name under another path.  Then [closeAnnouncement()] stores the cookie
    [announcement-<sectionId>-closed=true] with path [/] and an expiry 30 days
    ahead, and an [init()] of a new rotator with the same section id and a
    close button, run at any time before that expiry, sets [isClosed] and
    starts no timer: [intervalId] stays null and no interval is installed. *)
Theorem dismissal_round_trip (s : state) (w : env) (t total speed : Z) :
  lacks ";" (sectionId s) = true ->
  lacks "=" (sectionId s) = true ->
  forallb cookie_ok (jar w) = true ->
  unshadowed (closed_cookie_name s) (jar w) = true ->
  t < whole_seconds (now w + thirty_days) ->
  let c1 := closeAnnouncement (s, w) in
  let c2 := init (create total speed (sectionId s) true, set_now t (snd c1)) in
  isClosed (fst c1) = true /\
  In (dismissal_cookie s (now w)) (jar (snd c1)) /\
  isClosed (fst c2) = true /\
  intervalId (fst c2) = None /\
  timers (snd c2) = timers (snd c1).
Proof.
  intros Hsemi Heq Hok Hsh Ht. cbv zeta.
  unfold closeAnnouncement.
  destruct (stopRotation_fields (set_isClosed true s, w))
    as (_ & _ & Hcl & _ & _ & Hsid & _ & Hnow & Hjar & _).
  destruct (stopRotation (set_isClosed true s, w)) as [s1 w1].
  cbn [fst snd] in *.
  change (sectionId (set_isClosed true s)) with (sectionId s) in Hsid.
  change (isClosed (set_isClosed true s)) with true in Hcl.
  rewrite (closed_cookie_name_ext s1 s Hsid).
  assert (Hset : setCookie (closed_cookie_name s) "true" 30 w1
                 = set_jar (filter (fun c => negb (same_cookie (closed_cookie_name s) "/" c))
                                   (jar w)
                              ++ [dismissal_cookie s (now w)])%list w1).
  { rewrite <- (closed_cookie_name_ext s1 s Hsid).
    rewrite setCookie_closed by congruence.
    rewrite Hjar. unfold dismissal_cookie.
    rewrite (closed_cookie_name_ext s1 s Hsid), Hnow. reflexivity. }
  rewrite Hset. clear Hset.
  set (front := filter _ (jar w)).
  split; [exact Hcl|]. split; [cbn; apply in_or_app; right; left; reflexivity|].
  assert (Hread : getCookie (closed_cookie_name s)
                    (set_now t (set_jar (front ++ [dismissal_cookie s (now w)])%list w1))
                  = Some "true").
  { apply (getCookie_closed s _ front (whole_seconds (now w + thirty_days)));
      trivial.
    subst front. apply Forall_forall. intros c Hc.
    apply filter_In in Hc. destruct Hc as [Hc Hdiff].
    rewrite forallb_forall in Hok. split; [exact (Hok c Hc)|].
    intros Hname. unfold unshadowed in Hsh. rewrite forallb_forall in Hsh.
    specialize (Hsh c Hc). cbn beta in Hsh.
    unfold same_cookie in Hdiff.
    apply String.eqb_eq in Hname. rewrite Hname in Hsh, Hdiff.
    cbn [implb andb] in Hsh, Hdiff. rewrite Hsh in Hdiff. discriminate. }
  unfold init.
  change (showCloseButton (create total speed (sectionId s) true)) with true.
  cbv iota.
  rewrite (closed_cookie_name_ext (create total speed (sectionId s) true) s eq_refl).
  rewrite Hread. cbn. repeat split.
Qed.

Lemma dismissal_round_trip_witness :
  let s := create 3 5000 "template--1__bar" true in
  let w := mkEnv 1700000000123
                 [mkCookie "cart" "abc" "/" None;
                  mkCookie "announcement-template--1__bar-closed" "false" "/" None]
                 [] 1%positive 0 [] in
  let c1 := closeAnnouncement (init (s, w)) in
  let c2 := init (create 3 5000 "template--1__bar" true,
                  set_now 1700086400000 (snd c1)) in
  isClosed (fst c2) = true /\ intervalId (fst c2) = None.
Proof.
  cbv zeta.
  pose proof (dismissal_round_trip
                (fst (init (create 3 5000 "template--1__bar" true,
                            mkEnv 1700000000123
                              [mkCookie "cart" "abc" "/" None;
                               mkCookie "announcement-template--1__bar-closed" "false" "/" None]
                              [] 1%positive 0 [])))
                (snd (init (create 3 5000 "template--1__bar" true,
                            mkEnv 1700000000123
                              [mkCookie "cart" "abc" "/" None;
                               mkCookie "announcement-template--1__bar-closed" "false" "/" None]
                              [] 1%positive 0 [])))
                1700086400000 3 5000
                eq_refl eq_refl eq_refl eq_refl eq_refl) as H.
  cbv zeta in H. destruct H as (_ & _ & H1 & H2 & _).
  split; [exact H1 | exact H2].
Defined.

End DismissalFacts.

(* ------------------------------------------------------------------------- *)
(** ** cartDrawer: traces of events *)

Section CartDrawerTraces.
Import CartDrawer.

Lemma await_json_delivered (r : fetch_result) (c : config) :
  match delivered r with
  | Some j => await_json r c = (Done j, c)
  | None => exists e, await_json r c = (Thrown e, c)
  end.
Proof.
  destruct r as [|status [j|]]; cbn.
  - eexists; reflexivity.
  - destruct (ok status); cbn; [reflexivity | eexists; reflexivity].
  - destruct (ok status); cbn; eexists; reflexivity.
Qed.

(** What resuming [refreshCart] changes. *)
Lemma refreshCart_resume_effect (r : fetch_result) (c : config) :
  let c' := after (refreshCart_resume r) c in
  isOpen (fst c') = isOpen (fst c) /\
  isLoading (fst c') = false /\
  cart (fst c') = match delivered r with Some j => j | None => cart (fst c) end /\
  error (fst c') = match delivered r with
                   | Some _ => error (fst c)
                   | None => Some "Unable to load cart. Please refresh the page."
                   end /\
  requests (snd c') = requests (snd c) /\
  events (snd c') = events (snd c) /\
  body_classes (snd c') = body_classes (snd c).
Proof.
  cbv zeta. unfold after, refreshCart_resume, try_catch_finally, bind, on_state,
    console_error, modify.
  pose proof (await_json_delivered r c) as H.
  destruct (delivered r) as [j|].
  - rewrite H. cbn. repeat split.
  - destruct H as [e ->]. cbn. repeat split.
Qed.

(** What resuming [updateQuantity] changes. *)
Lemma updateQuantity_resume_effect (r : fetch_result) (c : config) :
  let c' := after (updateQuantity_resume r) c in
  isOpen (fst c') = isOpen (fst c) /\
  isLoading (fst c') = false /\
  cart (fst c') = match delivered r with Some j => j | None => cart (fst c) end /\
  error (fst c') = match delivered r with
                   | Some _ => error (fst c)
                   | None => Some "Unable to update cart. Please try again."
                   end /\
  requests (snd c') = requests (snd c) /\
  events (snd c') = match delivered r with
                    | Some j => ("cart:updated", j) :: events (snd c)
                    | None => events (snd c)
                    end /\
  body_classes (snd c') = body_classes (snd c).
Proof.
  cbv zeta. unfold after, updateQuantity_resume, try_catch_finally, bind, on_state,
    console_error, dispatchEvent, modify.
  pose proof (await_json_delivered r c) as H.
  destruct (delivered r) as [j|].
  - rewrite H. cbn. repeat split.
  - destruct H as [e ->]. cbn. repeat split.
Qed.

Lemma run_app (evs1 evs2 : list event) (c : config) :
  run (evs1 ++ evs2) c = run evs2 (run evs1 c).
Proof. apply fold_left_app. Qed.

Lemma run_cons (e : event) (evs : list event) (c : config) :
  run (e :: evs) c = run evs (after (handle e) c).
Proof. reflexivity. Qed.

Lemma classList_add_In (cls : string) (l : list string) :
  In cls (classList_add cls l).
Proof.
  unfold classList_add. destruct (existsb (String.eqb cls) l) eqn:E.
  - apply existsb_exists in E. destruct E as (x & Hx & Hc).
    apply String.eqb_eq in Hc. now subst.
  - apply in_or_app. right. left. reflexivity.
Qed.

Lemma classList_remove_not_In (cls : string) (l : list string) :
  ~ In cls (classList_remove cls l).
Proof.
  unfold classList_remove. intros H. apply filter_In in H. destruct H as [_ H].
  rewrite String.eqb_refl in H. discriminate.
Qed.

Lemma classList_remove_add (cls : string) (l : list string) :
  classList_remove cls (classList_add cls l) = classList_remove cls l.
Proof.
  unfold classList_add, classList_remove.
  destruct (existsb (String.eqb cls) l); [reflexivity|].
  rewrite filter_app. cbn. rewrite String.eqb_refl. cbn. apply app_nil_r.
Qed.

Lemma classList_remove_idem (cls : string) (l : list string) :
  classList_remove cls (classList_remove cls l) = classList_remove cls l.
Proof.
  unfold classList_remove. induction l as [|x l IH]; cbn; [reflexivity|].
  destruct (String.eqb cls x) eqn:E; cbn; [exact IH|].
  rewrite E. cbn. now rewrite IH.
Qed.

Lemma handle_lock (e : event) (c : config) :
  lock_agrees c ->
  lock_agrees (after (handle e) c) /\
  classList_remove "overflow-hidden" (body_classes (snd (after (handle e) c)))
  = classList_remove "overflow-hidden" (body_classes (snd c)).
Proof.
  intros Hc. destruct c as [s w].
  assert (Hopen : lock_agrees (after open (s, w)) /\
                  classList_remove "overflow-hidden" (body_classes (snd (after open (s, w))))
                  = classList_remove "overflow-hidden" (body_classes w)).
  { unfold lock_agrees.
    change (body_classes (snd (after open (s, w))))
      with (classList_add "overflow-hidden" (body_classes w)).
    change (isOpen (fst (after open (s, w)))) with true.
    split.
    - split; intros _; [apply classList_add_In | reflexivity].
    - apply classList_remove_add. }
  assert (Hclose : lock_agrees (after close (s, w)) /\
                   classList_remove "overflow-hidden" (body_classes (snd (after close (s, w))))
                   = classList_remove "overflow-hidden" (body_classes w)).
  { unfold lock_agrees.
    change (body_classes (snd (after close (s, w))))
      with (classList_remove "overflow-hidden" (body_classes w)).
    change (isOpen (fst (after close (s, w)))) with false.
    split.
    - split; [discriminate | intros H; now apply classList_remove_not_In in H].
    - apply classList_remove_idem. }
  destruct e; cbn [handle].
  - (* cart:add *)
    unfold lock_agrees.
    change (body_classes (snd (after on_cart_add (s, w))))
      with (classList_add "overflow-hidden" (body_classes w)).
    change (isOpen (fst (after on_cart_add (s, w)))) with true.
    split.
    + split; intros _; [apply classList_add_In | reflexivity].
    + apply classList_remove_add.
  - split; [exact Hc | reflexivity].
  - exact Hopen.
  - exact Hclose.
  - unfold after, toggle. cbn [fst].
    destruct (isOpen s); [exact Hclose | exact Hopen].
  - split; [exact Hc | reflexivity].
  - split; [exact Hc | reflexivity].
  - split; [exact Hc | reflexivity].
  - destruct (refreshCart_resume_effect r (s, w)) as (Ho & _ & _ & _ & _ & _ & Hb).
    unfold lock_agrees in *. cbn [fst snd] in *. rewrite Ho, Hb. split; [exact Hc | reflexivity].
  - destruct (updateQuantity_resume_effect r (s, w)) as (Ho & _ & _ & _ & _ & _ & Hb).
    unfold lock_agrees in *. cbn [fst snd] in *. rewrite Ho, Hb. split; [exact Hc | reflexivity].
Qed.

(** X1. Whatever happens to the cart drawer (window events, open, close,
    toggle, calls and their settling, in any order), the drawer is open
    exactly when [document.body] carries the class [overflow-hidden], provided
    that held at the start; and the other classes of the body are left as they
    were. *)
Theorem drawer_scroll_lock (evs : list event) (c : config) :
  lock_agrees c ->
  lock_agrees (run evs c) /\
  classList_remove "overflow-hidden" (body_classes (snd (run evs c)))
  = classList_remove "overflow-hidden" (body_classes (snd c)).
Proof.
  revert c. induction evs as [|e evs IH]; intros c Hc.
  - split; [exact Hc | reflexivity].
  - rewrite run_cons. destruct (handle_lock e c Hc) as [H1 H2].
    destruct (IH _ H1) as [H3 H4]. split; [exact H3|]. now rewrite H4.
Qed.

Lemma drawer_scroll_lock_witness :
  lock_agrees (run [EvCartAdd; EvRefreshSettled NetworkError; EvToggle; EvOpen]
                   (initial, mkEnv [] [] [] ["template-product"])).
Proof.
  apply (drawer_scroll_lock
           [EvCartAdd; EvRefreshSettled NetworkError; EvToggle; EvOpen]
           (initial, mkEnv [] [] [] ["template-product"])).
  unfold lock_agrees. cbn [fst snd initial isOpen body_classes]. split; [discriminate|].
  intros [H|[]]. discriminate.
Defined.

Lemma handle_requests (e : event) (c : config) :
  requests (snd (after (handle e) c)) = (rev (issued [e]) ++ requests (snd c))%list.
Proof.
  destruct e; try reflexivity.
  - unfold after, handle, toggle. destruct (isOpen (fst c)); reflexivity.
  - now destruct (refreshCart_resume_effect r c) as (_ & _ & _ & _ & H & _).
  - now destruct (updateQuantity_resume_effect r c) as (_ & _ & _ & _ & H & _).
Qed.

Lemma issued_cons (e : event) (evs : list event) :
  issued (e :: evs) = (issued [e] ++ issued evs)%list.
Proof. destruct e; cbn; rewrite ?app_nil_r; reflexivity. Qed.

(** X2. The requests sent over a trace are exactly those of the calls made:
    one [GET /cart.js] per [refreshCart] (also through [cart:add] and
    [cart:update]), one [POST /cart/change.js] with the line key and quantity
    per [updateQuantity], with quantity 0 for [removeItem].  A settling fetch
    sends nothing, whether it failed or not: there is no retry. *)
Theorem drawer_requests (evs : list event) (c : config) :
  requests (snd (run evs c)) = (rev (issued evs) ++ requests (snd c))%list.
Proof.
  revert c. induction evs as [|e evs IH]; intros c.
  - reflexivity.
  - rewrite run_cons, IH, handle_requests, (issued_cons e evs), rev_app_distr.
    now rewrite app_assoc.
Qed.

Lemma handle_cart (e : event) (c : config) :
  last_delivered [e] (Some (cart (fst c))) = Some (cart (fst (after (handle e) c))).
Proof.
  destruct e; try reflexivity.
  - unfold after, handle, toggle. destruct (isOpen (fst c)); reflexivity.
  - destruct (refreshCart_resume_effect r c) as (_ & _ & H & _).
    cbn [handle last_delivered]. rewrite H. destruct (delivered r); reflexivity.
  - destruct (updateQuantity_resume_effect r c) as (_ & _ & H & _).
    cbn [handle last_delivered]. rewrite H. destruct (delivered r); reflexivity.
Qed.

Lemma last_delivered_cons (e : event) (evs : list event) (before : option json) :
  last_delivered (e :: evs) before = last_delivered evs (last_delivered [e] before).
Proof. destruct e; reflexivity. Qed.

(** X3. Over any trace the cached cart is the body of the last fetch that
    settled with a 2xx JSON response, of either method, and the cart from
    before the trace if there was none: failures, calls in flight and the
    drawer's opening and closing never touch it, and of two overlapping calls
    the one that settles last wins. *)
Theorem drawer_cart_is_last_delivered (evs : list event) (c : config) :
  Some (cart (fst (run evs c))) = last_delivered evs (Some (cart (fst c))).
Proof.
  revert c. induction evs as [|e evs IH]; intros c.
  - reflexivity.
  - rewrite run_cons, last_delivered_cons, (handle_cart e c). apply IH.
Qed.

Lemma handle_events (e : event) (c : config) :
  events (snd (after (handle e) c))
  = (rev (map (pair "cart:updated") (updates_delivered [e])) ++ events (snd c))%list.
Proof.
  destruct e; try reflexivity.
  - unfold after, handle, toggle. destruct (isOpen (fst c)); reflexivity.
  - now destruct (refreshCart_resume_effect r c) as (_ & _ & _ & _ & _ & H & _).
  - destruct (updateQuantity_resume_effect r c) as (_ & _ & _ & _ & _ & H & _).
    cbn [handle]. rewrite H. cbn. destruct (delivered r); reflexivity.
Qed.

Lemma updates_delivered_cons (e : event) (evs : list event) :
  updates_delivered (e :: evs) = (updates_delivered [e] ++ updates_delivered evs)%list.
Proof.
  destruct e; try reflexivity. cbn. destruct (delivered r); reflexivity.
Qed.

(** X4. The [cart:updated] events dispatched over a trace are exactly the
    successful settles of [updateQuantity], in order, each carrying the
    response body: a refresh dispatches nothing, and a failed update
    dispatches nothing. *)
Theorem drawer_events (evs : list event) (c : config) :
  events (snd (run evs c))
  = (rev (map (pair "cart:updated") (updates_delivered evs)) ++ events (snd c))%list.
Proof.
  revert c. induction evs as [|e evs IH]; intros c.
  - reflexivity.
  - rewrite run_cons, IH, handle_events, (updates_delivered_cons e evs), map_app, rev_app_distr.
    now rewrite app_assoc.
Qed.

(** X5. Two overlapping [refreshCart] calls, the first failing and the second
    succeeding.  When the first settles, [isLoading] is already false although
    the second is still in flight; when the second settles the cart is its
    body, and the error message of the first call is still set, since only the
    start of a call clears [error].  Run one after the other instead, the same
    two calls end with [error] null. *)
Theorem drawer_overlapping_refresh (evs : list event) (c : config)
        (r1 r2 : fetch_result) (body : json) :
  delivered r1 = None ->
  delivered r2 = Some body ->
  let pending := run (evs ++ [EvRefreshCart; EvRefreshCart; EvRefreshSettled r1]) c in
  let overlapped := run [EvRefreshSettled r2] pending in
  let in_turn := run (evs ++ [EvRefreshCart; EvRefreshSettled r1;
                              EvRefreshCart; EvRefreshSettled r2]) c in
  isLoading (fst pending) = false /\
  cart (fst overlapped) = body /\
  error (fst overlapped) = Some "Unable to load cart. Please refresh the page." /\
  isLoading (fst overlapped) = false /\
  cart (fst in_turn) = body /\
  error (fst in_turn) = None.
Proof.
  intros H1 H2. cbv zeta. rewrite !run_app.
  set (c0 := run evs c).
  repeat rewrite run_cons. cbn [run fold_left].
  repeat match goal with
  | |- context [after (handle (EvRefreshSettled ?r)) ?x] =>
      let H := fresh "E" in
      pose proof (refreshCart_resume_effect r x) as H; cbv zeta in H;
      change (refreshCart_resume r) with (handle (EvRefreshSettled r)) in H;
      destruct H as (_ & ? & ? & ? & _);
      generalize dependent (after (handle (EvRefreshSettled r)) x); intros
  end.
  rewrite H1, H2 in *. cbn in *.
  repeat split; congruence.
Qed.

Lemma drawer_overlapping_refresh_witness :
  let c := (initial, mkEnv [] [] [] []) in
  let late := Response 200 (Some (JObj [("item_count", JNum 3)])) in
  error (fst (run [EvRefreshCart; EvRefreshCart;
                   EvRefreshSettled (Response 500 None); EvRefreshSettled late] c))
  = Some "Unable to load cart. Please refresh the page.".
Proof.
  cbv zeta.
  apply (drawer_overlapping_refresh [] (initial, mkEnv [] [] [] [])
           (Response 500 None)
           (Response 200 (Some (JObj [("item_count", JNum 3)])))
           (JObj [("item_count", JNum 3)]) eq_refl eq_refl).
Defined.

End CartDrawerTraces.

(* ------------------------------------------------------------------------- *)
(** ** cartDrawer: a call and what overlaps it *)

Section CartDrawerCalls.
Import CartDrawer.

Lemma failed_delivered (r : fetch_result) : failed r -> delivered r = None.
Proof. destruct r as [|status parsed]; cbn; [reflexivity | now intros ->]. Qed.

Lemma succeeded_delivered (r : fetch_result) (body : json) :
  succeeded_with r body -> delivered r = Some body.
Proof. intros (status & Hok & ->). cbn. now rewrite Hok. Qed.

Lemma last_delivered_default (evs : list event) (x : json) :
  last_delivered evs (Some x)
  = Some (match last_delivered evs None with Some j => j | None => x end).
Proof.
  revert x. induction evs as [|e evs IH]; intros x; [reflexivity|].
  destruct e; cbn [last_delivered]; try apply IH;
    destruct (delivered r) as [j|]; rewrite ?IH; try reflexivity;
    rewrite (IH j); reflexivity.
Qed.

Lemma run_cart (evs : list event) (c : config) :
  cart (fst (run evs c))
  = match last_delivered evs None with Some j => j | None => cart (fst c) end.
Proof.
  assert (H : Some (cart (fst (run evs c))) = last_delivered evs (Some (cart (fst c)))).
  { revert c. induction evs as [|e evs IH]; intros c; [reflexivity|].
    rewrite run_cons, last_delivered_cons, (handle_cart e c). apply IH. }
  rewrite last_delivered_default in H. now injection H.
Qed.

Lemma run_events (evs : list event) (c : config) :
  events (snd (run evs c))
  = (rev (map (pair "cart:updated") (updates_delivered evs)) ++ events (snd c))%list.
Proof.
  revert c. induction evs as [|e evs IH]; intros c; [reflexivity|].
  rewrite run_cons, IH, handle_events, (updates_delivered_cons e evs), map_app, rev_app_distr.
  now rewrite app_assoc.
Qed.

Lemma handle_error (e : event) (c : config) :
  error (fst (after (handle e) c)) = last_error [e] (error (fst c)).
Proof.
  destruct e; try reflexivity.
  - unfold after, handle, toggle. destruct (isOpen (fst c)); reflexivity.
  - destruct (refreshCart_resume_effect r c) as (_ & _ & _ & H & _).
    cbn [handle last_error]. rewrite H. destruct (delivered r); reflexivity.
  - destruct (updateQuantity_resume_effect r c) as (_ & _ & _ & H & _).
    cbn [handle last_error]. rewrite H. destruct (delivered r); reflexivity.
Qed.

Lemma run_error (evs : list event) (c : config) :
  error (fst (run evs c)) = last_error evs (error (fst c)).
Proof.
  revert c. induction evs as [|e evs IH]; intros c; [reflexivity|].
  rewrite run_cons, IH, handle_error. reflexivity.
Qed.

(** While no fetch settles, nothing is delivered and no error is set. *)
Lemma undisturbed_quiet (between : list event) :
  undisturbed between = true ->
  last_delivered between None = None /\ last_error between None = None /\
  updates_delivered between = [].
Proof.
  unfold undisturbed. induction between as [|e evs IH]; [repeat split|].
  cbn [forallb]. intros H. apply andb_prop in H. destruct H as [He H].
  destruct e; cbn in He; try discriminate; cbn [last_delivered last_error updates_delivered];
    apply IH, H.
Qed.

(** C2 as stated: a [refreshCart] that succeeds ends with [error] non-null
    when an earlier call, still in flight when it started, fails before it
    settles. *)
Lemma refreshCart_overlapped : ~ refreshCart_as_claimed.
Proof.
  intros H.
  destruct (H [EvRefreshSettled (Response 500 None)]
              (Response 200 (Some (JObj [("item_count", JNum 1)])))
              (mkState false true JNull None) (mkEnv [] [] [] [])) as [Hs _].
  destruct (Hs (JObj [("item_count", JNum 1)])) as [_ He].
  - exists 200. split; reflexivity.
  - vm_compute in He. discriminate.
Qed.

(** C2, as the code has it.  A [refreshCart] that succeeds replaces the whole
    cached cart by the parsed response; it does not touch [error], which is
    null at that point unless another call failed while this one was in
    flight.  A [refreshCart] that fails sets the user-facing message and does
    not touch the cart, which is the one from before the call unless another
    call delivered a response in the meantime.  When no other fetch settles in
    between, success leaves [error] null and failure leaves the cart of before
    the call.  In every case the call completes without an uncaught
    exception. *)
Theorem refreshCart_snapshot (between : list event) (r : fetch_result)
        (s : state) (w : env) :
  let c' := after (refreshCart between r) (s, w) in
  completes (refreshCart between r) (s, w) /\
  (forall body, succeeded_with r body ->
     cart (fst c') = body /\ error (fst c') = last_error between None) /\
  (failed r ->
     cart (fst c') = match last_delivered between None with
                     | Some j => j
                     | None => cart s
                     end /\
     error (fst c') = Some "Unable to load cart. Please refresh the page.") /\
  (undisturbed between = true ->
     (forall body, succeeded_with r body ->
        cart (fst c') = body /\ error (fst c') = None) /\
     (failed r ->
        cart (fst c') = cart s /\
        error (fst c') = Some "Unable to load cart. Please refresh the page.")).
Proof.
  cbv zeta. unfold after, completes. rewrite refreshCart_unfold.
  set (mid := run between (after refreshCart_start (s, w))).
  destruct (refreshCart_resume_effect r mid) as (_ & _ & Hc & He & _).
  unfold after in Hc, He.
  assert (Hmc : cart (fst mid) = match last_delivered between None with
                                 | Some j => j | None => cart s end)
    by (subst mid; now rewrite run_cart).
  assert (Hme : error (fst mid) = last_error between None)
    by (subst mid; now rewrite run_error).
  assert (Hgood : forall body, succeeded_with r body ->
            cart (fst (snd (refreshCart_resume r mid))) = body /\
            error (fst (snd (refreshCart_resume r mid))) = last_error between None).
  { intros body Hs. apply succeeded_delivered in Hs. rewrite Hs in Hc, He.
    split; congruence. }
  assert (Hbad : failed r ->
            cart (fst (snd (refreshCart_resume r mid)))
            = match last_delivered between None with Some j => j | None => cart s end /\
            error (fst (snd (refreshCart_resume r mid)))
            = Some "Unable to load cart. Please refresh the page.").
  { intros Hf. apply failed_delivered in Hf. rewrite Hf in Hc, He.
    split; congruence. }
  split; [|split; [exact Hgood | split; [exact Hbad|]]].
  - exists tt. unfold refreshCart_resume, try_catch_finally, bind, on_state,
      console_error, modify.
    destruct (await_json r mid) as [[j|e] c1]; reflexivity.
  - intros Hq. destruct (undisturbed_quiet between Hq) as (Hd & Hl & _). split.
    + intros body Hs. destruct (Hgood body Hs) as [G1 G2]. split; congruence.
    + intros Hf. destruct (Hbad Hf) as [G1 G2]. rewrite Hd in G1. split; assumption.
Qed.

Lemma refreshCart_snapshot_witness :
  cart (fst (after (refreshCart [EvOpen; EvUpdateQuantity "40123:abc" 2]
                                (Response 503 None))
                   (mkState true false (JObj [("item_count", JNum 2)]) None,
                    mkEnv [] [] [] [])))
  = JObj [("item_count", JNum 2)].
Proof.
  apply (proj2 (proj2 (proj2 (refreshCart_snapshot
           [EvOpen; EvUpdateQuantity "40123:abc" 2] (Response 503 None)
           (mkState true false (JObj [("item_count", JNum 2)]) None)
           (mkEnv [] [] [] []))))); reflexivity.
Defined.

(** C1 as stated: the cart after a failed [updateQuantity] is not the cart
    from before the call when an earlier update, still in flight when it
    started, succeeds before it settles. *)
Lemma updateQuantity_overlapped : ~ updateQuantity_as_claimed.
Proof.
  intros H.
  destruct (H "40123:abc" 3
              [EvUpdateSettled (Response 200 (Some (JObj [("item_count", JNum 2)])))]
              NetworkError
              (mkState true true JNull None) (mkEnv [] [] [] [])) as [Hf _].
  destruct (Hf I) as [Hc _]. vm_compute in Hc. discriminate.
Qed.

(** C1, as the code has it.  An [updateQuantity] whose call fails leaves
    [error] non-null, dispatches nothing and does not touch the cart, which is
    the one from before the call unless another call delivered a response
    while this one was in flight.  One whose call succeeds replaces the whole
    cached cart by the response body and dispatches one [cart:updated] event
    carrying that body.  When no other fetch settles in between, the cart
    after a failed call is the cart from before it. *)
Theorem updateQuantity_snapshot (lineItemKey : string) (quantity : Z)
        (between : list event) (r : fetch_result) (s : state) (w : env) :
  let c' := after (updateQuantity lineItemKey quantity between r) (s, w) in
  let dispatched := rev (map (pair "cart:updated") (updates_delivered between)) in
  completes (updateQuantity lineItemKey quantity between r) (s, w) /\
  (failed r ->
     cart (fst c') = match last_delivered between None with
                     | Some j => j
                     | None => cart s
                     end /\
     error (fst c') = Some "Unable to update cart. Please try again." /\
     events (snd c') = (dispatched ++ events w)%list) /\
  (forall body, succeeded_with r body ->
     cart (fst c') = body /\
     events (snd c') = ("cart:updated", body) :: (dispatched ++ events w)%list) /\
  (undisturbed between = true ->
     (failed r ->
        cart (fst c') = cart s /\ error (fst c') <> None /\ events (snd c') = events w) /\
     (forall body, succeeded_with r body ->
        cart (fst c') = body /\ events (snd c') = ("cart:updated", body) :: events w)).
Proof.
  cbv zeta. unfold after, completes. rewrite updateQuantity_unfold.
  set (mid := run between (after (updateQuantity_start lineItemKey quantity) (s, w))).
  destruct (updateQuantity_resume_effect r mid) as (_ & _ & Hc & He & _ & Hev & _).
  unfold after in Hc, He, Hev.
  assert (Hmc : cart (fst mid) = match last_delivered between None with
                                 | Some j => j | None => cart s end)
    by (subst mid; now rewrite run_cart).
  assert (Hmv : events (snd mid)
                = (rev (map (pair "cart:updated") (updates_delivered between))
                   ++ events w)%list)
    by (subst mid; now rewrite run_events).
  assert (Hbad : failed r ->
            cart (fst (snd (updateQuantity_resume r mid)))
            = match last_delivered between None with Some j => j | None => cart s end /\
            error (fst (snd (updateQuantity_resume r mid)))
            = Some "Unable to update cart. Please try again." /\
            events (snd (snd (updateQuantity_resume r mid)))
            = (rev (map (pair "cart:updated") (updates_delivered between))
               ++ events w)%list).
  { intros Hf. apply failed_delivered in Hf. rewrite Hf in Hc, He, Hev.
    repeat split; congruence. }
  assert (Hgood : forall body, succeeded_with r body ->
            cart (fst (snd (updateQuantity_resume r mid))) = body /\
            events (snd (snd (updateQuantity_resume r mid)))
            = ("cart:updated", body)
              :: (rev (map (pair "cart:updated") (updates_delivered between))
                  ++ events w)%list).
  { intros body Hs. apply succeeded_delivered in Hs. rewrite Hs in Hc, Hev.
    split; congruence. }
  split; [|split; [exact Hbad | split; [exact Hgood|]]].
  - exists tt. unfold updateQuantity_resume, try_catch_finally, bind, on_state,
      console_error, dispatchEvent, modify.
    destruct (await_json r mid) as [[j|e] c1]; reflexivity.
  - intros Hq. destruct (undisturbed_quiet between Hq) as (Hd & _ & Hu). split.
    + intros Hf. destruct (Hbad Hf) as (G1 & G2 & G3).
      rewrite Hd in G1. rewrite Hu in G3. repeat split; try assumption.
      rewrite G2. discriminate.
    + intros body Hs. destruct (Hgood body Hs) as [G1 G2].
      rewrite Hu in G2. split; assumption.
Qed.

Lemma updateQuantity_snapshot_witness :
  let c' := after (updateQuantity "40123:abc" 2 [EvCartUpdate; EvClose] NetworkError)
                  (mkState true false (JObj [("item_count", JNum 1)]) None,
                   mkEnv [] [] [] []) in
  cart (fst c') = JObj [("item_count", JNum 1)] /\ error (fst c') <> None
  /\ events (snd c') = [].
Proof.
  cbv zeta.
  apply (proj2 (proj2 (proj2 (updateQuantity_snapshot "40123:abc" 2
           [EvCartUpdate; EvClose] NetworkError
           (mkState true false (JObj [("item_count", JNum 1)]) None)
           (mkEnv [] [] [] []))))); [reflexivity | exact I].
Defined.

End CartDrawerCalls.

(* ------------------------------------------------------------------------- *)
(** ** mobileMenu *)

Section MobileMenuFacts.
Import MobileMenu.

Lemma step_widths (o : op) (c : config) :
  innerWidth (snd (step o c)) = innerWidth (snd c) /\
  clientWidth (snd (step o c)) = clientWidth (snd c).
Proof.
  destruct c as [s w].
  assert (Hopen : innerWidth (snd (open (s, w))) = innerWidth w /\
                  clientWidth (snd (open (s, w))) = clientWidth w).
  { unfold open, set_paddingRight_px. cbn [snd].
    destruct (getScrollbarWidth (set_overflow "hidden" w) <? 0); split; reflexivity. }
  destruct o; cbn [step]; unfold toggle, handleEscape; cbn [fst];
    try destruct (String.eqb key "Escape"); cbn [andb];
    try destruct (isOpen s);
    try exact Hopen; split; reflexivity.
Qed.

Lemma step_styles (o : op) (c : config) :
  clientWidth (snd c) "hidden" <= innerWidth (snd c) ->
  styles_agree c -> styles_agree (step o c).
Proof.
  intros Hw Hc. destruct c as [s w]. cbn [snd] in Hw.
  assert (Hopen : styles_agree (open (s, w))).
  { unfold styles_agree, open, set_paddingRight_px, getScrollbarWidth.
    cbn [set_overflow body_overflow innerWidth clientWidth].
    destruct (Z.ltb_spec (innerWidth w - clientWidth w "hidden") 0) as [H|H]; [lia|].
    cbn [fst snd isOpen body_overflow body_paddingRight innerWidth clientWidth].
    split; [intros _; split; reflexivity | discriminate]. }
  assert (Hclose : styles_agree (close (s, w))).
  { unfold styles_agree, close. cbn. split; [discriminate | intros _; split; reflexivity]. }
  destruct o; cbn [step]; unfold toggle, handleEscape; cbn [fst].
  - exact Hopen.
  - exact Hclose.
  - destruct (isOpen s); assumption.
  - destruct (String.eqb key "Escape" && isOpen s); assumption.
Qed.

Lemma run_widths (ops : list op) (c : config) :
  innerWidth (snd (run ops c)) = innerWidth (snd c) /\
  clientWidth (snd (run ops c)) = clientWidth (snd c).
Proof.
  revert c. induction ops as [|o ops IH]; intros c; [split; reflexivity|].
  change (run (o :: ops) c) with (run ops (step o c)).
  destruct (IH (step o c)) as [H1 H2]. destruct (step_widths o c) as [H3 H4].
  split; congruence.
Qed.

(** X6. Over any sequence of open, close, toggle and handleEscape the mobile
    menu and the body styles agree, given that they agreed at the start and
    that the document is not wider than the window: while the menu is open
    [overflow] is [hidden] and [paddingRight] is the scrollbar width in
    pixels, measured after the overflow was set; while it is closed both
    styles are empty.  So when the locked page shows no scrollbar the padding
    is [0px]. *)
Theorem menu_styles (ops : list op) (c : config) :
  clientWidth (snd c) "hidden" <= innerWidth (snd c) ->
  styles_agree c ->
  styles_agree (run ops c) /\
  (isOpen (fst (run ops c)) = true ->
   clientWidth (snd c) "hidden" = innerWidth (snd c) ->
   body_paddingRight (snd (run ops c)) = "0px").
Proof.
  intros Hw Hc.
  assert (H : styles_agree (run ops c)).
  { revert c Hw Hc. induction ops as [|o ops IH]; intros c Hw Hc; [exact Hc|].
    change (run (o :: ops) c) with (run ops (step o c)).
    destruct (step_widths o c) as [H1 H2].
    apply IH; [rewrite H1, H2; exact Hw | apply step_styles; assumption]. }
  split; [exact H|].
  intros Ho Heq. destruct H as [H _]. destruct (H Ho) as [_ Hp].
  destruct (run_widths ops c) as [H1 H2].
  rewrite Hp, H1, H2, Heq, Z.sub_diag. reflexivity.
Qed.

Lemma menu_styles_witness :
  let w := mkEnv "" "" 1280 (fun overflow => if String.eqb overflow "hidden" then 1280 else 1265) in
  body_paddingRight (snd (run [OpToggle; OpHandleEscape "Enter"] (initial, w))) = "0px".
Proof.
  cbv zeta.
  apply (menu_styles [OpToggle; OpHandleEscape "Enter"]
           (initial,
            mkEnv "" "" 1280
                  (fun overflow => if String.eqb overflow "hidden" then 1280 else 1265))).
  - cbn. lia.
  - unfold styles_agree. cbn. split; [discriminate | intros _; split; reflexivity].
  - reflexivity.
  - reflexivity.
Defined.

End MobileMenuFacts.

(* ------------------------------------------------------------------------- *)
(** ** alpineHeader: traces of events *)

Section HeaderTraces.
Import Header.

Lemma handle_fixed (e : event) (c : config) :
  headerOffsetTop (fst (handle e c)) = headerOffsetTop (fst c) /\
  stickyEnabled (fst (handle e c)) = stickyEnabled (fst c) /\
  scroll_listener (snd (handle e c)) = scroll_listener (snd c) /\
  header_offsetTop (snd (handle e c)) = header_offsetTop (snd c).
Proof.
  destruct c as [s w]. destruct e; cbn [handle].
  - unfold scroll_event, handleScroll. cbn [scroll_listener fst snd].
    destruct (scroll_listener w); cbn [fst snd headerOffsetTop stickyEnabled
      scroll_listener header_offsetTop]; repeat split.
  - unfold toggleMobileMenu. destruct (mobileMenuOpen s); cbn; repeat split.
  - repeat split.
  - unfold keydown_event. destruct (String.eqb key "Escape" && mobileMenuOpen (fst (s, w)));
      repeat split.
Qed.

Lemma handle_sticky (e : event) (c : config) :
  scroll_listener (snd c) = true ->
  isSticky (fst (handle e c))
  = match last_scroll [e] None with
    | Some y => y >=? headerOffsetTop (fst c)
    | None => isSticky (fst c)
    end.
Proof.
  intros Hl. destruct c as [s w]. cbn [snd] in Hl. destruct e; cbn [handle last_scroll].
  - unfold scroll_event, handleScroll. cbn [scroll_listener]. rewrite Hl. reflexivity.
  - reflexivity.
  - reflexivity.
  - unfold keydown_event. destruct (String.eqb key "Escape" && mobileMenuOpen (fst (s, w)));
      reflexivity.
Qed.

Lemma last_scroll_cons (e : event) (evs : list event) (before : option Z) :
  last_scroll (e :: evs) before = last_scroll evs (last_scroll [e] before).
Proof. destruct e; reflexivity. Qed.

Lemma last_scroll_some (evs : list event) (y : Z) :
  exists y', last_scroll evs (Some y) = Some y'.
Proof.
  revert y. induction evs as [|e evs IH]; intros y; [now exists y|].
  destruct e; cbn [last_scroll]; apply IH.
Qed.

Lemma sticky_after (evs : list event) (c : config) (b : option Z) :
  scroll_listener (snd c) = true ->
  match b with
  | Some y => isSticky (fst c) = (y >=? headerOffsetTop (fst c))
  | None => True
  end ->
  isSticky (fst (run evs c))
  = match last_scroll evs b with
    | Some y => y >=? headerOffsetTop (fst c)
    | None => isSticky (fst c)
    end.
Proof.
  revert c b. induction evs as [|e evs IH]; intros c b Hl Hb.
  - cbn [run fold_left last_scroll]. destruct b; [exact Hb | reflexivity].
  - change (run (e :: evs) c) with (run evs (handle e c)).
    destruct (handle_fixed e c) as (Hoff & _ & Hls & _).
    pose proof (handle_sticky e c Hl) as Hst.
    rewrite last_scroll_cons.
    rewrite (IH (handle e c) (last_scroll [e] b)).
    + rewrite Hoff.
      destruct (last_scroll evs (last_scroll [e] b)) as [y|] eqn:E; [reflexivity|].
      destruct (last_scroll [e] b) as [y|] eqn:Eb.
      * destruct (last_scroll_some evs y) as [y' Hy']. congruence.
      * rewrite Hst. destruct e; cbn [last_scroll] in *; congruence.
    + congruence.
    + rewrite Hoff, Hst. destruct e; cbn [last_scroll]; try reflexivity;
        destruct b; trivial.
Qed.

(** X7. Once [init] has installed the scroll listener, [isSticky] after any
    trace of scroll events, menu toggles and key presses is decided by the last
    scroll event alone: it is true exactly when that event's offset is at
    least the header position recorded by [init], which no event changes.
    Scrolling back above the header clears it; without a scroll event it
    keeps its value. *)
Theorem sticky_follows_last_scroll (evs : list event) (c : config) :
  scroll_listener (snd c) = true ->
  headerOffsetTop (fst (run evs c)) = headerOffsetTop (fst c) /\
  isSticky (fst (run evs c))
  = match last_scroll evs None with
    | Some y => y >=? headerOffsetTop (fst c)
    | None => isSticky (fst c)
    end.
Proof.
  intros Hl. split; [|apply sticky_after; trivial].
  clear Hl. revert c. induction evs as [|e evs IH]; intros c; [reflexivity|].
  change (run (e :: evs) c) with (run evs (handle e c)).
  rewrite IH. apply handle_fixed.
Qed.

Lemma sticky_follows_last_scroll_witness :
  isSticky (fst (run [EvScroll 640 640; EvToggleMobileMenu; EvScroll 120 120]
                     (init (create true, mkEnv 0 0 200 false ""))))
  = false.
Proof.
  apply (sticky_follows_last_scroll
           [EvScroll 640 640; EvToggleMobileMenu; EvScroll 120 120]
           (init (create true, mkEnv 0 0 200 false ""))).
  reflexivity.
Defined.

(** X8. With [stickyEnabled] false, [init] installs no scroll listener, and
    then no trace of events ever changes [isSticky]: the header never turns
    sticky, however far the page is scrolled. *)
Theorem sticky_disabled (evs : list event) (s : state) (w : env) :
  stickyEnabled s = false ->
  scroll_listener w = false ->
  isSticky (fst (run evs (init (s, w)))) = isSticky s.
Proof.
  intros Hs Hw.
  assert (H : forall c, scroll_listener (snd c) = false ->
                        isSticky (fst (run evs c)) = isSticky (fst c)).
  { induction evs as [|e evs IH]; intros c Hl; [reflexivity|].
    change (run (e :: evs) c) with (run evs (handle e c)).
    destruct (handle_fixed e c) as (_ & _ & Hls & _).
    rewrite IH by congruence.
    destruct c as [s0 w0]. cbn [snd] in Hl. destruct e; cbn [handle].
    - unfold scroll_event. cbn [scroll_listener]. rewrite Hl. reflexivity.
    - reflexivity.
    - reflexivity.
    - unfold keydown_event.
      destruct (String.eqb key "Escape" && mobileMenuOpen (fst (s0, w0))); reflexivity. }
  rewrite H.
  - unfold init. reflexivity.
  - unfold init. cbn [snd]. rewrite Hs. exact Hw.
Qed.

Lemma sticky_disabled_witness :
  isSticky (fst (run [EvScroll 900 900; EvScroll 0 0; EvScroll 5000 5000]
                     (init (create false, mkEnv 0 0 200 false ""))))
  = false.
Proof.
  apply (sticky_disabled [EvScroll 900 900; EvScroll 0 0; EvScroll 5000 5000]
           (create false) (mkEnv 0 0 200 false "")); reflexivity.
Defined.

Lemma handle_lock_header (e : event) (c : config) :
  lock_agrees c -> lock_agrees (handle e c).
Proof.
  intros Hc. destruct c as [s w].
  assert (Hclose : lock_agrees (closeMobileMenu (s, w))).
  { unfold lock_agrees. cbn. split; [discriminate | reflexivity]. }
  destruct e; cbn [handle].
  - unfold scroll_event, handleScroll. cbn [scroll_listener].
    destruct (scroll_listener w); exact Hc.
  - unfold lock_agrees, toggleMobileMenu. cbn [mobileMenuOpen fst snd].
    destruct (mobileMenuOpen s); cbn; split; congruence.
  - exact Hclose.
  - unfold keydown_event.
    destruct (String.eqb key "Escape" && mobileMenuOpen (fst (s, w))); assumption.
Qed.

(** X9. Over any trace of scroll events, menu toggles, closings and key
    presses, the header's mobile menu is open exactly when the body's
    [overflow] is [hidden], and closed exactly when it is empty, provided that
    held at the start; and pressing [Escape] always leaves the menu closed. *)
Theorem header_menu_lock (evs : list event) (c : config) :
  lock_agrees c ->
  lock_agrees (run evs c) /\
  mobileMenuOpen (fst (run (evs ++ [EvKeydown "Escape"]) c)) = false.
Proof.
  intros Hc.
  assert (H : lock_agrees (run evs c)).
  { revert c Hc. induction evs as [|e evs IH]; intros c Hc; [exact Hc|].
    change (run (e :: evs) c) with (run evs (handle e c)).
    apply IH, handle_lock_header, Hc. }
  split; [exact H|].
  unfold run. rewrite fold_left_app. fold (run evs c). cbn [fold_left handle].
  unfold keydown_event. rewrite String.eqb_refl. cbn [andb].
  destruct (mobileMenuOpen (fst (run evs c))) eqn:E; [|exact E].
  destruct (run evs c); reflexivity.
Qed.

Lemma header_menu_lock_witness :
  lock_agrees (run [EvToggleMobileMenu; EvScroll 10 10; EvKeydown "Escape"; EvToggleMobileMenu]
                   (init (create true, mkEnv 0 0 200 false ""))).
Proof.
  apply (header_menu_lock
           [EvToggleMobileMenu; EvScroll 10 10; EvKeydown "Escape"; EvToggleMobileMenu]
           (init (create true, mkEnv 0 0 200 false ""))).
  unfold lock_agrees. cbn. split; [discriminate | reflexivity].
Defined.

End HeaderTraces.

(* ------------------------------------------------------------------------- *)
(** ** productGallery: bounds and navigation *)

Section GalleryFacts.
Import ProductGallery.

Lemma step_images (o : op) (s : state) : images (step o s) = images s.
Proof.
  destruct o; cbn [step]; unfold next, previous, goTo, handleKeydown.
  - destruct (negb (isLast s)); reflexivity.
  - destruct (negb (isFirst s)); reflexivity.
  - destruct ((0 <=? index) && (index <? length s)); reflexivity.
  - unfold next, previous.
    destruct (String.eqb key "ArrowLeft"); cbn [fst];
      [destruct (negb (isFirst s)); reflexivity|].
    destruct (String.eqb key "ArrowRight"); cbn [fst];
      [destruct (negb (isLast s)); reflexivity|].
    reflexivity.
Qed.

Lemma run_images (ops : list op) (s : state) : images (run ops s) = images s.
Proof.
  revert s. induction ops as [|o ops IH]; intros s; [reflexivity|].
  change (run (o :: ops) s) with (run ops (step o s)).
  now rewrite IH, step_images.
Qed.

Lemma next_in_bounds (s : state) : in_bounds s -> in_bounds (next s).
Proof.
  unfold in_bounds, next, isLast, length. intros H.
  destruct (Z.eqb_spec (currentIndex s) (Z.of_nat (List.length (images s)) - 1));
    cbn; lia.
Qed.

Lemma previous_in_bounds (s : state) : in_bounds s -> in_bounds (previous s).
Proof.
  unfold in_bounds, previous, isFirst, length. intros H.
  destruct (Z.eqb_spec (currentIndex s) 0); cbn; lia.
Qed.

Lemma goTo_in_bounds (i : Z) (s : state) : in_bounds s -> in_bounds (goTo i s).
Proof.
  unfold in_bounds, goTo, length. intros H.
  destruct (Z.leb_spec 0 i), (Z.ltb_spec i (Z.of_nat (List.length (images s))));
    cbn; lia.
Qed.

Lemma step_in_bounds (o : op) (s : state) : in_bounds s -> in_bounds (step o s).
Proof.
  intros H. destruct o; cbn [step].
  - now apply next_in_bounds.
  - now apply previous_in_bounds.
  - now apply goTo_in_bounds.
  - unfold handleKeydown.
    destruct (String.eqb key "ArrowLeft"); cbn [fst]; [now apply previous_in_bounds|].
    destruct (String.eqb key "ArrowRight"); cbn [fst]; [now apply next_in_bounds | exact H].
Qed.

(** X10. The gallery keeps its index within the images: from a state with
    [0 <= currentIndex < images.length], any sequence of next, previous, goTo
    (with any index) and key presses (any key) ends in such a state, with the
    same images; in particular a gallery created with at least one image
    never leaves its bounds. *)
Theorem gallery_stays_in_bounds (ops : list op) (s : state) :
  in_bounds s ->
  in_bounds (run ops s) /\ images (run ops s) = images s.
Proof.
  intros H. split; [|apply run_images].
  revert s H. induction ops as [|o ops IH]; intros s H; [exact H|].
  change (run (o :: ops) s) with (run ops (step o s)).
  apply IH, step_in_bounds, H.
Qed.

Lemma gallery_stays_in_bounds_witness :
  in_bounds (run [OpPrevious; OpGoTo 7; OpKeydown "ArrowRight"; OpNext; OpGoTo (-1)]
                 (create [JStr "a.jpg"; JStr "b.jpg"; JStr "c.jpg"])).
Proof.
  apply (gallery_stays_in_bounds
           [OpPrevious; OpGoTo 7; OpKeydown "ArrowRight"; OpNext; OpGoTo (-1)]
           (create [JStr "a.jpg"; JStr "b.jpg"; JStr "c.jpg"])).
  unfold in_bounds. cbn. lia.
Defined.

(** X11. Within bounds, [next] and [previous] undo each other, wrapping
    included: [previous] after [next] and [next] after [previous] give back
    the state. *)
Theorem gallery_next_previous (s : state) :
  in_bounds s ->
  previous (next s) = s /\ next (previous s) = s.
Proof.
  unfold in_bounds, length. intros H. destruct s as [i l]. cbn [currentIndex images] in H.
  unfold next, previous, isFirst, isLast, length, set_currentIndex.
  cbn [currentIndex images]. split.
  - destruct (Z.eqb_spec i (Z.of_nat (List.length l) - 1)) as [E|E]; cbn [negb currentIndex images].
    + rewrite Z.eqb_refl. cbn [negb]. f_equal. lia.
    + destruct (Z.eqb_spec (i + 1) 0); [lia|]. cbn [negb]. f_equal. lia.
  - destruct (Z.eqb_spec i 0) as [E|E]; cbn [negb currentIndex images].
    + rewrite Z.eqb_refl. cbn [negb]. f_equal. lia.
    + destruct (Z.eqb_spec (i - 1) (Z.of_nat (List.length l) - 1)); [lia|].
      cbn [negb]. f_equal. lia.
Qed.

Lemma gallery_next_previous_witness :
  previous (next (mkState 2 [JStr "a.jpg"; JStr "b.jpg"; JStr "c.jpg"]))
  = mkState 2 [JStr "a.jpg"; JStr "b.jpg"; JStr "c.jpg"].
Proof.
  apply (gallery_next_previous (mkState 2 [JStr "a.jpg"; JStr "b.jpg"; JStr "c.jpg"])).
  unfold in_bounds. cbn. lia.
Defined.

Lemma empty_next_counts (s : state) (k : nat) :
  images s = [] -> 0 <= currentIndex s ->
  Nat.iter k next s = set_currentIndex (currentIndex s + Z.of_nat k) s.
Proof.
  intros He H0. induction k as [|k IH].
  - cbn [Nat.iter]. destruct s. unfold set_currentIndex. cbn. f_equal. lia.
  - rewrite Nat.iter_succ, IH.
    unfold next, isLast, length, set_currentIndex. cbn [currentIndex images].
    rewrite He. cbn [List.length Z.of_nat].
    destruct (Z.eqb_spec (currentIndex s + Z.of_nat k) (0 - 1)); [lia|].
    cbn [negb]. f_equal. lia.
Qed.

(** X12. A gallery without images is not kept within bounds: [next] never
    wraps there, so [k] calls from index 0 leave [currentIndex] at [k], and
    [previous] from index 0 leaves it at [-1].  Whatever is done to it, its
    [currentImage] is null. *)
Theorem gallery_empty (k : nat) (ops : list op) :
  currentIndex (Nat.iter k next (create [])) = Z.of_nat k /\
  currentIndex (previous (create [])) = -1 /\
  currentImage (run ops (create [])) = JNull.
Proof.
  split; [|split].
  - rewrite empty_next_counts by (cbn; trivial; lia). reflexivity.
  - reflexivity.
  - unfold currentImage. rewrite run_images. cbn [create images].
    unfold element. destruct (currentIndex (run ops (create [])) <? 0); [reflexivity|].
    destruct (Z.to_nat (currentIndex (run ops (create [])))); reflexivity.
Qed.

(** X13. Every image can be shown: for an index within bounds whose image is
    truthy, [currentImage] after [goTo(i)] is that image, from whatever state
    the gallery was in. *)
Theorem gallery_goTo_shows (i : Z) (v : json) (s : state) :
  0 <= i ->
  nth_error (images s) (Z.to_nat i) = Some v ->
  truthy v = true ->
  currentImage (goTo i s) = v.
Proof.
  intros Hi Hn Ht.
  assert (Hlt : i < length s).
  { unfold length. assert (Z.to_nat i < List.length (images s))%nat; [|lia].
    apply nth_error_Some. congruence. }
  unfold goTo. destruct (Z.leb_spec 0 i); [|lia].
  destruct (Z.ltb_spec i (length s)); [|lia]. cbn [andb].
  unfold currentImage, set_currentIndex, element. cbn [currentIndex images].
  destruct (Z.ltb_spec i 0); [lia|]. rewrite Hn. cbn [or_null]. now rewrite Ht.
Qed.

Lemma gallery_goTo_shows_witness :
  currentImage (goTo 1 (create [JStr "a.jpg"; JStr "b.jpg"])) = JStr "b.jpg".
Proof.
  apply (gallery_goTo_shows 1 (JStr "b.jpg") (create [JStr "a.jpg"; JStr "b.jpg"]));
    [lia | reflexivity | reflexivity].
Defined.

End GalleryFacts.

(* ------------------------------------------------------------------------- *)
(** ** alpineAnnouncement: index, timers and keys over any run *)

Section RotatorRuns.
Import Announcement.

Lemma next_index (s : state) :
  0 <= currentIndex s < totalMessages s ->
  0 <= currentIndex (next s) < totalMessages s.
Proof.
  intros H. unfold next, set_currentIndex. cbn [currentIndex].
  pose proof (Z.rem_bound_pos (currentIndex s + 1) (totalMessages s)). lia.
Qed.

Lemma previous_index (s : state) :
  0 <= currentIndex s < totalMessages s ->
  0 <= currentIndex (previous s) < totalMessages s.
Proof.
  intros H. unfold previous, set_currentIndex. cbn [currentIndex].
  pose proof (Z.rem_bound_pos (currentIndex s - 1 + totalMessages s) (totalMessages s)).
  lia.
Qed.

Lemma startRotation_state (c : config) :
  fst (startRotation c) = set_intervalId (Some (next_timer
           (match intervalId (fst c) with
            | Some id => clearInterval id (snd c)
            | None => snd c
            end))) (fst c).
Proof. destruct c as [s w]. unfold startRotation, setInterval. reflexivity. Qed.

Lemma goTo_index (i : Z) (c : config) : index_ok c -> index_ok (goTo i c) /\
  totalMessages (fst (goTo i c)) = totalMessages (fst c).
Proof.
  unfold index_ok. destruct c as [s w]. cbn [fst]. intros H. unfold goTo.
  destruct (Z.leb_spec 0 i), (Z.ltb_spec i (totalMessages s)); cbn [andb fst];
    try (split; [exact H | reflexivity]).
  change (totalMessages (set_currentIndex i s)) with (totalMessages s).
  destruct (1 <? totalMessages s).
  - rewrite startRotation_state.
    destruct (stopRotation_fields (set_currentIndex i s, w)) as (_ & _ & _ & Ht & Hi & _).
    cbn [fst snd totalMessages currentIndex set_intervalId] in *.
    rewrite Ht, Hi. cbn. split; [lia | reflexivity].
  - cbn. split; [lia | reflexivity].
Qed.

Lemma step_index (o : op) (c : config) : index_ok c -> index_ok (step o c) /\
  totalMessages (fst (step o c)) = totalMessages (fst c).
Proof.
  intros H. unfold index_ok in *. destruct o; cbn [step].
  - (* init *)
    destruct c as [s w]. unfold init. cbn [fst] in *.
    set (s1 := if showCloseButton s then _ else s).
    assert (Hs1 : currentIndex s1 = currentIndex s /\ totalMessages s1 = totalMessages s).
    { subst s1. destruct (showCloseButton s); split; reflexivity. }
    destruct Hs1 as [Hi Ht].
    destruct (negb (isClosed s1) && (1 <? totalMessages s1)); cbn [fst].
    + rewrite startRotation_state. cbn. rewrite Hi, Ht. split; [exact H | reflexivity].
    + rewrite Hi, Ht. split; [exact H | reflexivity].
  - rewrite startRotation_state. cbn. split; [exact H | reflexivity].
  - destruct (stopRotation_fields c) as (_ & _ & _ & Ht & Hi & _).
    rewrite Ht, Hi. split; [exact H | reflexivity].
  - split; [exact H | reflexivity].
  - split; [exact H | reflexivity].
  - cbn [on_state fst]. split; [exact (next_index (fst c) H) | reflexivity].
  - cbn [on_state fst]. split; [exact (previous_index (fst c) H) | reflexivity].
  - now apply goTo_index.
  - destruct c as [s w]. unfold closeAnnouncement.
    destruct (stopRotation_fields (set_isClosed true s, w)) as (_ & _ & _ & Ht & Hi & _).
    destruct (stopRotation (set_isClosed true s, w)) as [s1 w1].
    cbn [fst snd] in *. rewrite Ht, Hi. split; [exact H | reflexivity].
  - unfold destroy. destruct (stopRotation_fields c) as (_ & _ & _ & Ht & Hi & _).
    rewrite Ht, Hi. split; [exact H | reflexivity].
Qed.

Lemma act_index (a : action) (c : config) : index_ok c -> index_ok (act a c) /\
  totalMessages (fst (act a c)) = totalMessages (fst c).
Proof.
  intros H. destruct a; cbn [act].
  - now apply step_index.
  - unfold handleKeydown.
    destruct (String.eqb key "ArrowLeft"); cbn [fst on_state];
      [split; [exact (previous_index (fst c) H) | reflexivity]|].
    destruct (String.eqb key "ArrowRight"); cbn [fst on_state];
      [split; [exact (next_index (fst c) H) | reflexivity]|].
    destruct (String.leb "1" key && String.leb key "3"); cbn [fst];
      [|split; [exact H | reflexivity]].
    destruct (parseInt key - 1 <? totalMessages (fst c)); cbn [fst];
      [now apply goTo_index | split; [exact H | reflexivity]].
  - destruct c as [s w]. unfold fire, interval_callback.
    destruct (existsb _ (timers w)); [|split; [exact H | reflexivity]].
    destruct (negb (isPaused s)); cbn [fst];
      [split; [exact (next_index s H) | reflexivity] | split; [exact H | reflexivity]].
Qed.

(** X14. With at least one message the rotator's index never leaves its
    range: from a component whose [currentIndex] is in
    [0, totalMessages), after any sequence of method calls (with any [goTo]
    index), key presses (any key) and timer firings, [currentIndex] is again in
    [0, totalMessages), and [totalMessages] is what it was. *)
Theorem rotator_index_in_range (acts : list action) (c : config) :
  0 <= currentIndex (fst c) < totalMessages (fst c) ->
  0 <= currentIndex (fst (run_actions acts c)) < totalMessages (fst c) /\
  totalMessages (fst (run_actions acts c)) = totalMessages (fst c).
Proof.
  revert c. induction acts as [|a acts IH]; intros c H.
  - split; [exact H | reflexivity].
  - change (run_actions (a :: acts) c) with (run_actions acts (act a c)).
    destruct (act_index a c H) as [H1 H2]. unfold index_ok in H1.
    destruct (IH (act a c) H1) as [H3 H4]. rewrite H2 in *. split; assumption.
Qed.

Lemma rotator_index_in_range_witness :
  let c := (create 3 5000 "bar" true, mkEnv 0 [] [] 1%positive 0 []) in
  0 <= currentIndex (fst (run_actions
         [Call OpInit; Fire 1%positive; Keydown "ArrowLeft"; Call (OpGoTo 9);
          Keydown "3"; Call OpNext] c)) < 3.
Proof.
  cbv zeta.
  apply (rotator_index_in_range
           [Call OpInit; Fire 1%positive; Keydown "ArrowLeft"; Call (OpGoTo 9);
            Keydown "3"; Call OpNext]
           (create 3 5000 "bar" true, mkEnv 0 [] [] 1%positive 0 [])).
  cbn. lia.
Defined.

(** X15. Within range, [next] and [previous] undo each other, wrapping
    included. *)
Theorem rotator_next_previous (s : state) :
  0 <= currentIndex s < totalMessages s ->
  previous (next s) = s /\ next (previous s) = s.
Proof.
  intros H. destruct s as [i n sp id p cl sid scb]. cbn [currentIndex totalMessages] in H.
  unfold next, previous, set_currentIndex.
  cbn [currentIndex totalMessages rotationSpeed intervalId isPaused isClosed sectionId
       showCloseButton].
  assert (E1 : Z.rem (Z.rem (i + 1) n - 1 + n) n = i).
  { destruct (Z.eq_dec (i + 1) n) as [E|E].
    - rewrite E, Z.rem_same by lia. rewrite Z.rem_small by lia. lia.
    - rewrite (Z.rem_small (i + 1) n) by lia.
      replace (i + 1 - 1 + n) with (i + 1 * n) by lia.
      rewrite Z.rem_add by (try lia; nia). apply Z.rem_small. lia. }
  assert (E2 : Z.rem (Z.rem (i - 1 + n) n + 1) n = i).
  { destruct (Z.eq_dec i 0) as [E|E].
    - subst i. rewrite (Z.rem_small (0 - 1 + n) n) by lia.
      replace (0 - 1 + n + 1) with n by lia. apply Z.rem_same. lia.
    - replace (i - 1 + n) with (i - 1 + 1 * n) by lia.
      rewrite Z.rem_add by (try lia; nia). rewrite (Z.rem_small (i - 1) n) by lia.
      replace (i - 1 + 1) with i by lia. apply Z.rem_small. lia. }
  rewrite E1, E2. split; reflexivity.
Qed.

Lemma rotator_next_previous_witness :
  next (previous (create 3 5000 "bar" true)) = create 3 5000 "bar" true.
Proof.
  apply (rotator_next_previous (create 3 5000 "bar" true)). cbn. lia.
Defined.

Lemma filter_keeps_older (id : positive) (base : list (positive * Z)) (n0 : positive) :
  (forall t, In t base -> (fst t < n0)%positive) ->
  (n0 <= id)%positive ->
  filter (fun t => negb (Pos.eqb (fst t) id)) base = base.
Proof.
  intros Hb Hid. induction base as [|t base IH]; [reflexivity|].
  cbn [filter].
  assert (Ht : (fst t < n0)%positive) by (apply Hb; now left).
  destruct (Pos.eqb_spec (fst t) id); [lia|]. cbn [negb].
  rewrite IH; [reflexivity|]. intros u Hu. apply Hb. now right.
Qed.

Lemma startRotation_owned (w0 : env) (c : config) :
  timers_fresh w0 -> timers_owned w0 c -> timers_owned w0 (startRotation c).
Proof.
  intros Hf (Ht & Hid & Hn). destruct c as [s w]. cbn [fst snd] in *.
  unfold timers_owned, startRotation, setInterval, own_timer in *.
  destruct (intervalId s) as [id|] eqn:E.
  - cbn [app] in Ht.
    cbn [fst snd timers next_timer clearInterval record_call set_intervalId intervalId
         rotationSpeed app].
    rewrite Ht. cbn [filter fst]. rewrite Pos.eqb_refl. cbn [negb].
    rewrite (filter_keeps_older id (timers w0) (next_timer w0) Hf (Hid id eq_refl)).
    repeat split; [|lia]. intros id' H. injection H as <-. exact Hn.
  - cbn [app] in Ht.
    cbn [fst snd timers next_timer record_call set_intervalId intervalId rotationSpeed app].
    rewrite Ht. repeat split; [|lia]. intros id' H. injection H as <-. exact Hn.
Qed.

Lemma stopRotation_owned (w0 : env) (c : config) :
  timers_fresh w0 -> timers_owned w0 c -> timers_owned w0 (stopRotation c).
Proof.
  intros Hf (Ht & Hid & Hn). destruct c as [s w]. cbn [fst snd] in *.
  unfold timers_owned, stopRotation, own_timer in *.
  destruct (intervalId s) as [id|] eqn:E.
  - cbn [app] in Ht.
    cbn [fst snd timers next_timer clearInterval record_call set_intervalId intervalId app].
    rewrite Ht. cbn [filter fst]. rewrite Pos.eqb_refl. cbn [negb].
    rewrite (filter_keeps_older id (timers w0) (next_timer w0) Hf (Hid id eq_refl)).
    repeat split; [discriminate | exact Hn].
  - cbn [fst snd timers next_timer record_call]. rewrite E. cbn [app].
    repeat split; [exact Ht | discriminate | exact Hn].
Qed.

(** Changes that leave the timer fields alone keep the ownership. *)
Lemma owned_ext (w0 : env) (c c' : config) :
  intervalId (fst c') = intervalId (fst c) ->
  rotationSpeed (fst c') = rotationSpeed (fst c) ->
  timers (snd c') = timers (snd c) ->
  next_timer (snd c') = next_timer (snd c) ->
  timers_owned w0 c -> timers_owned w0 c'.
Proof.
  unfold timers_owned, own_timer. intros -> -> -> ->. trivial.
Qed.

Lemma setCookie_timers (name value : string) (days : Z) (w : env) :
  timers (setCookie name value days w) = timers w /\
  next_timer (setCookie name value days w) = next_timer w.
Proof.
  unfold setCookie, document_cookie_set.
  destruct (find_first "=" _) as [[n v]|]; [|split; reflexivity].
  destruct (String.eqb (trim n) ""); split; reflexivity.
Qed.

Lemma goTo_owned (w0 : env) (i : Z) (c : config) :
  timers_fresh w0 -> timers_owned w0 c -> timers_owned w0 (goTo i c).
Proof.
  intros Hf Hc. destruct c as [s w]. unfold goTo.
  destruct ((0 <=? i) && (i <? totalMessages s)); [|exact Hc].
  assert (H1 : timers_owned w0 (set_currentIndex i s, w))
    by (apply (owned_ext w0 (s, w)); trivial).
  destruct (1 <? totalMessages (set_currentIndex i s)); [|exact H1].
  now apply startRotation_owned, stopRotation_owned.
Qed.

Lemma step_owned (w0 : env) (o : op) (c : config) :
  timers_fresh w0 -> timers_owned w0 c -> timers_owned w0 (step o c).
Proof.
  intros Hf Hc. destruct o; cbn [step].
  - (* init *)
    destruct c as [s w]. unfold init.
    set (s1 := if showCloseButton s then _ else s).
    assert (H1 : timers_owned w0 (s1, w)).
    { apply (owned_ext w0 (s, w)); trivial; subst s1;
        destruct (showCloseButton s); reflexivity. }
    destruct (negb (isClosed s1) && (1 <? totalMessages s1)).
    + apply (owned_ext w0 (startRotation (s1, w))); trivial.
      now apply startRotation_owned.
    + apply (owned_ext w0 (s1, w)); trivial.
  - now apply startRotation_owned.
  - now apply stopRotation_owned.
  - apply (owned_ext w0 c); trivial.
  - apply (owned_ext w0 c); trivial.
  - apply (owned_ext w0 c); trivial.
  - apply (owned_ext w0 c); trivial.
  - now apply goTo_owned.
  - destruct c as [s w]. unfold closeAnnouncement.
    assert (H1 : timers_owned w0 (stopRotation (set_isClosed true s, w))).
    { apply stopRotation_owned; [exact Hf|]. apply (owned_ext w0 (s, w)); trivial. }
    destruct (stopRotation (set_isClosed true s, w)) as [s1 w1].
    destruct (setCookie_timers (closed_cookie_name s1) "true" 30 w1) as [E1 E2].
    apply (owned_ext w0 (s1, w1)); trivial.
  - now apply stopRotation_owned.
Qed.

Lemma act_owned (w0 : env) (a : action) (c : config) :
  timers_fresh w0 -> timers_owned w0 c -> timers_owned w0 (act a c).
Proof.
  intros Hf Hc. destruct a; cbn [act].
  - now apply step_owned.
  - unfold handleKeydown.
    destruct (String.eqb key "ArrowLeft"); cbn [fst];
      [apply (owned_ext w0 c); trivial|].
    destruct (String.eqb key "ArrowRight"); cbn [fst];
      [apply (owned_ext w0 c); trivial|].
    destruct (String.leb "1" key && String.leb key "3"); cbn [fst]; [|exact Hc].
    destruct (parseInt key - 1 <? totalMessages (fst c)); cbn [fst]; [|exact Hc].
    now apply goTo_owned.
  - destruct c as [s w]. unfold fire, interval_callback.
    destruct (existsb _ (timers w)); [|exact Hc].
    destruct (negb (isPaused s)); [|exact Hc].
    apply (owned_ext w0 (s, w)); trivial.
Qed.

(** X16. The rotator never leaks a timer.  Attached to a page whose timer
    ids are in order, a new component that is put through any sequence of
    method calls, key presses and timer firings leaves installed exactly the
    timers that were there before it plus, when [intervalId] is non-null, the
    one interval it names, with delay [rotationSpeed]; restarts and [goTo]
    clear the old interval before installing the new one.  After [destroy]
    none of its own is left. *)
Theorem rotator_timers_owned (acts : list action) (s0 : state) (w0 : env) :
  timers_fresh w0 ->
  intervalId s0 = None ->
  let c := run_actions acts (s0, w0) in
  timers (snd c) = (own_timer (fst c) ++ timers w0)%list /\
  intervalId (fst (destroy c)) = None /\
  timers (snd (destroy c)) = timers w0.
Proof.
  intros Hf H0. cbv zeta.
  assert (H : timers_owned w0 (run_actions acts (s0, w0))).
  { assert (Hc : timers_owned w0 (s0, w0)).
    { unfold timers_owned, own_timer. cbn [fst snd]. rewrite H0.
      repeat split; [discriminate | lia]. }
    generalize dependent (s0, w0). clear s0 H0.
    induction acts as [|a acts IH]; intros c Hc; [exact Hc|].
    change (run_actions (a :: acts) c) with (run_actions acts (act a c)).
    apply IH, act_owned; assumption. }
  split; [apply H|].
  pose proof (stopRotation_owned w0 _ Hf H) as (Ht & _ & _).
  destruct (stopRotation_fields (run_actions acts (s0, w0))) as (Hid & _).
  unfold destroy. split; [exact Hid|].
  rewrite Ht. unfold own_timer. rewrite Hid. reflexivity.
Qed.

Lemma rotator_timers_owned_witness :
  let w0 := mkEnv 0 [] [(4%positive, 250)] 5%positive 0 [] in
  timers (snd (destroy (run_actions
     [Call OpInit; Call (OpGoTo 2); Fire 6%positive; Keydown "1"; Call OpStartRotation]
     (create 3 5000 "bar" true, w0))))
  = [(4%positive, 250)].
Proof.
  cbv zeta.
  apply (rotator_timers_owned
           [Call OpInit; Call (OpGoTo 2); Fire 6%positive; Keydown "1"; Call OpStartRotation]
           (create 3 5000 "bar" true)
           (mkEnv 0 [] [(4%positive, 250)] 5%positive 0 [])).
  - intros t [<-|[]]. cbn. lia.
  - reflexivity.
Defined.

Lemma single_character_key (ch : ascii) :
  String.eqb (String ch "") "ArrowLeft" = false /\
  String.eqb (String ch "") "ArrowRight" = false /\
  String.leb "1" (String ch "") && String.leb (String ch "") "3"
  = match digit_value ch with
    | Some d => (1 <=? d) && (d <=? 3)
    | None => false
    end /\
  parseInt (String ch "") = match digit_value ch with Some d => d | None => 0 end.
Proof.
  destruct ch as [[] [] [] [] [] [] [] []]; vm_compute; repeat split.
Qed.

Lemma goTo_sets_index (i : Z) (c : config) :
  0 <= i < totalMessages (fst c) -> currentIndex (fst (goTo i c)) = i.
Proof.
  destruct c as [s w]. cbn [fst]. intros H. unfold goTo.
  destruct (Z.leb_spec 0 i), (Z.ltb_spec i (totalMessages s)); try lia. cbn [andb].
  destruct (1 <? totalMessages (set_currentIndex i s)); [|reflexivity].
  rewrite startRotation_state.
  destruct (stopRotation_fields (set_currentIndex i s, w)) as (_ & _ & _ & _ & Hi & _).
  cbn [fst snd] in *. cbn [set_intervalId currentIndex]. exact Hi.
Qed.

(** X17. Of the single-character keys only [1], [2] and [3] navigate, and
    only up to [totalMessages]: such a digit [d <= totalMessages] moves to
    message [d - 1] and suppresses the default action; a digit above
    [totalMessages], any digit from [4] to [9] or [0], and every other
    character change nothing and leave the default action alone.  Messages
    after the third are out of reach of the digit keys. *)
Theorem rotator_digit_keys (ch : ascii) (c : config) :
  let r := handleKeydown (String ch "") c in
  match digit_value ch with
  | Some d =>
      if (1 <=? d) && (d <=? 3) && (d <=? totalMessages (fst c))
      then r = (goTo (d - 1) c, true) /\ currentIndex (fst (fst r)) = d - 1
      else r = (c, false)
  | None => r = (c, false)
  end.
Proof.
  cbv zeta. unfold handleKeydown.
  destruct (single_character_key ch) as (-> & -> & -> & ->).
  destruct (digit_value ch) as [d|]; [|reflexivity].
  destruct (Z.leb_spec 1 d), (Z.leb_spec d 3); cbn [andb]; try reflexivity.
  destruct (Z.leb_spec d (totalMessages (fst c))), (Z.ltb_spec (d - 1) (totalMessages (fst c)));
    try lia; [|reflexivity].
  split; [reflexivity|]. cbn [fst]. apply goTo_sets_index. lia.
Qed.

End RotatorRuns.

(* ------------------------------------------------------------------------- *)
(** ** alpineAnnouncement: cookies by name *)

Section CookieFacts.
Import Announcement.

Lemma glue_app (a b : list string) : glue (a ++ b) = glue a ++ glue b.
Proof.
  induction a as [|x a IH]; [reflexivity|].
  cbn [app]. rewrite !glue_cons, IH. now rewrite !append_assoc.
Qed.

Lemma value_glue (l : list string) :
  l <> [] -> "; " ++ join "; " l = glue l.
Proof.
  induction l as [|x l IH]; [congruence|]. intros _.
  destruct l as [|y l].
  - cbn [join]. rewrite glue_cons. cbn [glue fold_right]. now rewrite append_nil_r.
  - rewrite join_cons by discriminate. rewrite glue_cons, <- IH by discriminate.
    rewrite ?append_assoc. reflexivity.
Qed.

Lemma split_none (sep v : string) :
  find_first sep v = None -> split sep v = [v].
Proof.
  intros H. unfold split. destruct (String.length v); cbn [split_fuel]; [reflexivity|].
  now rewrite H.
Qed.

(** Two occurrences of the separator: at least three parts. *)
Lemma split_twice (c : ascii) (sep' v a b a' b' : string) :
  find_first (String c sep') v = Some (a, b) ->
  find_first (String c sep') b = Some (a', b') ->
  (3 <= List.length (split (String c sep') v))%nat.
Proof.
  intros Hv Hb. pose proof (find_first_shorter _ _ _ _ _ Hv) as Hlen.
  unfold split. destruct (String.length v) as [|n] eqn:En; [lia|].
  cbn [split_fuel]. rewrite Hv.
  destruct n as [|n].
  - destruct b; [discriminate | cbn in Hlen; lia].
  - cbn [split_fuel]. rewrite Hb. cbn [List.length].
    destruct n; cbn [split_fuel]; [cbn; lia|].
    destruct (find_first (String c sep') b') as [[u v']|]; cbn [List.length]; lia.
Qed.

Lemma shift_split_semicolon (v r : string) :
  lacks ";" v = true ->
  r = "" \/ (exists r', r = String ";" r') ->
  shift (split ";" (v ++ r)) = Some v.
Proof.
  intros Hv [->|[r' ->]].
  - rewrite append_nil_r, split_none by (now apply find_first_absent). reflexivity.
  - pose proof (find_first_char ";" v r' Hv) as H.
    unfold split. destruct (String.length (v ++ String ";" r')) eqn:E.
    + destruct v; discriminate.
    + cbn [split_fuel]. rewrite H. reflexivity.
Qed.

Lemma strip_prefix_app_some (p y t r : string) :
  strip_prefix p y = Some t -> strip_prefix p (y ++ r) = Some (t ++ r).
Proof.
  revert y. induction p as [|a p IH]; intros y H.
  - cbn in *. congruence.
  - destruct y as [|b y]; [discriminate|]. cbn [append strip_prefix] in *.
    destruct (Ascii.eqb a b); [now apply IH | discriminate].
Qed.

(** A cookie text starting with [name] occurs in [l]: the separator is found
    in [glue l]. *)
Lemma find_first_glue_found (name : string) (l : list string) (r : string) :
  lacks ";" name = true ->
  Forall (fun y => lacks ";" y = true) l ->
  Exists (fun y => strip_prefix name y <> None) l ->
  r = "" \/ (exists r', r = String ";" r') ->
  find_first ("; " ++ name) (glue l ++ r) <> None.
Proof.
  intros Hn Hl Hex Hr. induction l as [|y l IH]; [inversion Hex|].
  inversion Hl as [|? ? Hy Hl']; subst.
  destruct (strip_prefix name y) as [t|] eqn:E.
  - rewrite glue_cons, find_first_unfold.
    change ("; " ++ name) with (String ";" (String " " name)).
    replace (("; " ++ y ++ glue l) ++ r)
      with (String ";" (String " " (y ++ (glue l ++ r))))
      by (rewrite !append_assoc; reflexivity).
    cbn [strip_prefix]. rewrite !Ascii.eqb_refl.
    rewrite (strip_prefix_app_some name y t _ E). discriminate.
  - assert (Hex' : Exists (fun y => strip_prefix name y <> None) l).
    { inversion Hex; subst; [congruence | assumption]. }
    specialize (IH Hl' Hex').
    change (glue (y :: l)) with (glue ([y] ++ l)). rewrite glue_app, append_assoc.
    rewrite (find_first_glue name [y] (glue l ++ r) Hn)
      by (try (constructor; [split; assumption | constructor]); now apply glue_starts).
    destruct (find_first ("; " ++ name) (glue l ++ r)) as [[u v]|]; [discriminate|].
    congruence.
Qed.

(** The text of a well-formed cookie, seen from a name without [=]. *)
Lemma cookie_text_by_name (name : string) (c : cookie) :
  lacks "=" name = true -> cookie_ok c = true ->
  lacks ";" (cookie_text c) = true /\
  (named name c = false -> strip_prefix (name ++ "=") (cookie_text c) = None) /\
  (named name c = true ->
     cookie_text c = (name ++ "=") ++ c_value c /\ lacks ";" (c_value c) = true).
Proof.
  intros Hn Hok. unfold cookie_ok in Hok.
  apply andb_prop in Hok. destruct Hok as [Hok Hv].
  apply andb_prop in Hok. destruct Hok as [H1 H2].
  unfold cookie_text, named. split; [|split].
  - now rewrite !lacks_app, H1, Hv.
  - intros Hne. apply String.eqb_neq in Hne.
    destruct (strip_prefix (name ++ "=") (c_name c ++ "=" ++ c_value c)) eqn:E;
      [|reflexivity].
    exfalso. apply Hne. symmetry.
    apply (strip_prefix_name name (c_name c) (c_value c)); trivial. congruence.
  - intros He. apply String.eqb_eq in He. rewrite He.
    split; [now rewrite append_assoc | exact Hv].
Qed.

Lemma texts_unnamed (name : string) (l : list cookie) :
  lacks "=" name = true ->
  Forall (fun c => cookie_ok c = true) l ->
  Forall (fun c => named name c = false) l ->
  Forall (fun y => lacks ";" y = true /\ strip_prefix (name ++ "=") y = None)
         (map cookie_text l).
Proof.
  intros Hn Hok Hun. induction l as [|c l IH]; [constructor|].
  inversion Hok as [|? ? Hc Hl]; inversion Hun as [|? ? Hc' Hl']; subst.
  cbn [map]. constructor; [|now apply IH].
  destruct (cookie_text_by_name name c Hn Hc) as (T1 & T2 & _).
  split; [exact T1 | now apply T2].
Qed.

Lemma find_first_empty (c : ascii) (sep' : string) : find_first (String c sep') "" = None.
Proof. reflexivity. Qed.

(** No cookie of that name is served: [getCookie] is null. *)
Lemma getCookie_absent (name : string) (w : env) :
  lacks ";" name = true -> lacks "=" name = true ->
  Forall (fun c => cookie_ok c = true) (filter (live (now w)) (jar w)) ->
  Forall (fun c => named name c = false) (filter (live (now w)) (jar w)) ->
  getCookie name w = None.
Proof.
  intros Hs He Hok Hun. unfold getCookie, document_cookie.
  set (l := filter (live (now w)) (jar w)) in *.
  change ("; " ++ name ++ "=") with (String ";" (String " " (name ++ "="))).
  assert (Hnone : find_first (String ";" (String " " (name ++ "=")))
                             ("; " ++ join "; " (map cookie_text l)) = None).
  { destruct l as [|c l'] eqn:El.
    - cbn [map join]. destruct name; reflexivity.
    - rewrite value_glue by discriminate.
      rewrite <- (append_nil_r (glue _)).
      change (String ";" (String " " (name ++ "="))) with ("; " ++ (name ++ "=")).
      rewrite (find_first_glue (name ++ "=") _ "");
        [reflexivity | now rewrite lacks_app, Hs | now apply texts_unnamed | now left]. }
  rewrite (split_none _ _ Hnone). reflexivity.
Qed.

Lemma filter_none {A} (p : A -> bool) (l : list A) :
  filter p l = [] -> Forall (fun x => p x = false) l.
Proof.
  induction l as [|x l IH]; [constructor|]. cbn [filter].
  destruct (p x) eqn:E; [discriminate|]. intros H. constructor; auto.
Qed.

Lemma filter_some {A} (p : A -> bool) (l : list A) (x : A) (r : list A) :
  filter p l = x :: r ->
  exists front back,
    l = (front ++ x :: back)%list /\ Forall (fun y => p y = false) front /\
    p x = true /\ filter p back = r.
Proof.
  induction l as [|y l IH]; [discriminate|]. cbn [filter].
  destruct (p y) eqn:E.
  - intros H. injection H as -> Hr. exists [], l. repeat split; auto.
  - intros H. destruct (IH H) as (front & back & -> & Hf & Hx & Hb).
    exists (y :: front), back. repeat split; auto.
Qed.

(** The cookie [c] of that name is served, none before it: what [getCookie]
    returns depends on whether another one follows. *)
Lemma getCookie_found (name : string) (w : env) (front back : list cookie) (c : cookie) :
  lacks ";" name = true -> lacks "=" name = true ->
  filter (live (now w)) (jar w) = (front ++ c :: back)%list ->
  Forall (fun c => cookie_ok c = true) (front ++ c :: back) ->
  Forall (fun c => named name c = false) front ->
  named name c = true ->
  getCookie name w
  = match filter (named name) back with
    | [] => Some (c_value c)
    | _ => None
    end.
Proof.
  intros Hs He Hl Hok Hfront Hc.
  apply Forall_app in Hok. destruct Hok as [Hokf Hok].
  inversion Hok as [|? ? Hokc Hokb]; subst.
  destruct (cookie_text_by_name name c He Hokc) as (_ & _ & Htext).
  destruct (Htext Hc) as [Ht Hv]. clear Htext.
  assert (Hsep : lacks ";" (name ++ "=") = true) by (now rewrite lacks_app, Hs).
  unfold getCookie, document_cookie. rewrite Hl.
  rewrite value_glue by (destruct front; discriminate).
  rewrite map_app, glue_app. cbn [map]. rewrite glue_cons, Ht.
  set (TF := map cookie_text front). set (TB := map cookie_text back).
  replace (glue TF ++ "; " ++ ((name ++ "=") ++ c_value c) ++ glue TB)
    with (glue TF ++ ("; " ++ name ++ "=") ++ (c_value c ++ glue TB))
    by (now rewrite !append_assoc).
  assert (Hcut : find_first ("; " ++ name ++ "=")
                   (glue TF ++ ("; " ++ name ++ "=") ++ (c_value c ++ glue TB))
                 = Some (glue TF ++ "", c_value c ++ glue TB)).
  { rewrite (find_first_glue (name ++ "=") TF _ Hsep)
      by (try (now apply texts_unnamed); right; eexists; reflexivity).
    now rewrite find_first_here. }
  assert (Hrest : find_first ("; " ++ name ++ "=") (c_value c ++ glue TB)
                  = match find_first ("; " ++ name ++ "=") (glue TB) with
                    | Some (x, y) => Some (c_value c ++ x, y)
                    | None => None
                    end).
  { apply (find_first_skip ";" (String " " (name ++ "=")) (c_value c) (glue TB) Hv). }
  change ("; " ++ name ++ "=") with (String ";" (String " " (name ++ "="))) in *.
  destruct (filter (named name) back) as [|c' more] eqn:Eb.
  - apply filter_none in Eb.
    assert (Hnone : find_first (String ";" (String " " (name ++ "="))) (glue TB) = None).
    { rewrite <- (append_nil_r (glue TB)).
      change (String ";" (String " " (name ++ "="))) with ("; " ++ (name ++ "=")).
      rewrite (find_first_glue (name ++ "=") TB "" Hsep);
        [reflexivity | now apply texts_unnamed | now left]. }
    rewrite Hnone in Hrest.
    rewrite (split_once _ _ _ _ _ Hcut Hrest).
    cbn [List.length Nat.eqb pop].
    apply shift_split_semicolon; [exact Hv|].
    rewrite <- (append_nil_r (glue TB)). apply (glue_starts TB ""). now left.
  - assert (Hsome : find_first (String ";" (String " " (name ++ "="))) (glue TB) <> None).
    { rewrite <- (append_nil_r (glue TB)).
      change (String ";" (String " " (name ++ "="))) with ("; " ++ (name ++ "=")).
      apply find_first_glue_found; [exact Hsep | | | now left].
      - subst TB. rewrite Forall_forall in *. intros y Hy.
        apply in_map_iff in Hy. destruct Hy as (d & <- & Hd).
        now destruct (cookie_text_by_name name d He (Hokb d Hd)).
      - destruct (filter_some _ _ _ _ Eb) as (b1 & b2 & Hback & _ & Hc' & _).
        subst TB. rewrite Hback, map_app. apply Exists_app. right. left.
        rewrite Forall_forall in Hokb.
        destruct (cookie_text_by_name name c' He) as (_ & _ & Htext).
        { apply Hokb. rewrite Hback. apply in_or_app. right. now left. }
        destruct (Htext Hc') as [-> _]. now rewrite strip_prefix_app. }
    destruct (find_first (String ";" (String " " (name ++ "="))) (glue TB))
      as [[x y]|] eqn:E; [|congruence].
    pose proof (split_twice _ _ _ _ _ _ _ Hcut Hrest) as Hlen.
    destruct (List.length (split _ _)) as [|[|[|n]]]; try lia; reflexivity.
Qed.

Lemma live_ok (w : env) :
  forallb cookie_ok (jar w) = true ->
  Forall (fun c => cookie_ok c = true) (filter (live (now w)) (jar w)).
Proof.
  intros H. rewrite forallb_forall in H. apply Forall_forall.
  intros c Hc. apply filter_In in Hc. now apply H.
Qed.

Lemma getCookie_sole_value (name : string) (w : env) :
  lacks ";" name = true -> lacks "=" name = true ->
  forallb cookie_ok (jar w) = true ->
  getCookie name w = sole_value name w.
Proof.
  intros Hs He Hok. unfold sole_value, served.
  pose proof (live_ok w Hok) as Hl.
  destruct (filter (named name) (filter (live (now w)) (jar w))) as [|c more] eqn:E.
  - apply getCookie_absent; trivial. now apply filter_none.
  - destruct (filter_some _ _ _ _ E) as (front & back & Hsplit & Hf & Hc & Hb).
    rewrite (getCookie_found name w front back c); trivial;
      [|rewrite <- Hsplit; exact Hl].
    rewrite Hb. destruct more; reflexivity.
Qed.

(** X18. What [getCookie] finds in a well-formed jar, for a name without [;]
    and [=]: when exactly one cookie of that name is in scope and not expired
    it returns that cookie's value; when there is none it returns null; and
    when several cookies carry the name (under different paths) it returns
    null as well. *)
Theorem getCookie_by_name (name : string) (w : env) :
  lacks ";" name = true -> lacks "=" name = true ->
  forallb cookie_ok (jar w) = true ->
  match served name w with
  | [] => getCookie name w = None
  | [c] => getCookie name w = Some (c_value c)
  | _ :: _ :: _ => getCookie name w = None
  end.
Proof.
  intros Hs He Hok. rewrite (getCookie_sole_value name w Hs He Hok).
  unfold sole_value. destruct (served name w) as [|c [|c' l]]; reflexivity.
Qed.

Lemma getCookie_by_name_witness :
  getCookie "theme"
    (mkEnv 1000 [mkCookie "cart" "abc" "/" None;
                 mkCookie "theme" "dark" "/" (Some 5000);
                 mkCookie "theme" "light" "/products" None] [] 1%positive 0 [])
  = None.
Proof.
  apply (getCookie_by_name "theme"
           (mkEnv 1000 [mkCookie "cart" "abc" "/" None;
                        mkCookie "theme" "dark" "/" (Some 5000);
                        mkCookie "theme" "light" "/products" None] [] 1%positive 0 []));
    reflexivity.
Defined.

(** What [setCookie] stores for a plain name and value. *)
Lemma setCookie_stores (name value : string) (days : Z) (w : env) :
  cookie_name_ok name = true -> cookie_value_ok value = true ->
  setCookie name value days w
  = set_jar (let others := filter (fun c => negb (same_cookie name "/" c)) (jar w) in
             if expiry (now w) days <=? now w then others
             else (others ++ [mkCookie name value "/" (Some (expiry (now w) days))])%list) w.
Proof.
  unfold cookie_name_ok, cookie_value_ok. intros Hn Hv.
  apply andb_prop in Hn. destruct Hn as [Hn Hne].
  apply andb_prop in Hn. destruct Hn as [Hn Htn].
  apply andb_prop in Hn. destruct Hn as [Hs He].
  apply andb_prop in Hv. destruct Hv as [Hvs Htv].
  apply String.eqb_eq in Htn. apply String.eqb_eq in Htv. apply negb_true_iff in Hne.
  unfold setCookie, document_cookie_set, expiry.
  assert (H1 : find_first ";" (name ++ "=" ++ value) = None).
  { apply find_first_absent. now rewrite !lacks_app, Hs, Hvs. }
  rewrite H1.
  rewrite (find_first_char "=" name value He : find_first "=" (name ++ "=" ++ value) = _).
  rewrite Htn, Htv, Hne. reflexivity.
Qed.

Lemma others_unnamed (name : string) (j : list cookie) :
  unshadowed name j = true ->
  Forall (fun c => named name c = false)
         (filter (fun c => negb (same_cookie name "/" c)) j).
Proof.
  unfold unshadowed. intros H. rewrite forallb_forall in H. apply Forall_forall.
  intros c Hc. apply filter_In in Hc. destruct Hc as [Hc Hd].
  specialize (H c Hc). unfold same_cookie in Hd. unfold named.
  destruct (String.eqb (c_name c) name); [|reflexivity].
  cbn [implb andb] in *. rewrite H in Hd. discriminate.
Qed.

Lemma filter_all_false {A} (p : A -> bool) (l : list A) :
  Forall (fun x => p x = false) l -> filter p l = [].
Proof.
  induction 1 as [|x l Hx Hl IH]; [reflexivity|]. cbn [filter]. now rewrite Hx.
Qed.

Lemma Forall_filter {A} (P : A -> Prop) (q : A -> bool) (l : list A) :
  Forall P l -> Forall P (filter q l).
Proof.
  rewrite !Forall_forall. intros H x Hx. apply filter_In in Hx. now apply H.
Qed.

Lemma others_ok (name : string) (j : list cookie) :
  forallb cookie_ok j = true ->
  forallb cookie_ok (filter (fun c => negb (same_cookie name "/" c)) j) = true.
Proof.
  rewrite !forallb_forall. intros H c Hc. apply filter_In in Hc. now apply H.
Qed.

Lemma stored_ok (name value : string) (e : option Z) :
  cookie_name_ok name = true -> cookie_value_ok value = true ->
  cookie_ok (mkCookie name value "/" e) = true.
Proof.
  unfold cookie_name_ok, cookie_value_ok, cookie_ok. cbn [c_name c_value].
  intros Hn Hv.
  apply andb_prop in Hn. destruct Hn as [Hn _].
  apply andb_prop in Hn. destruct Hn as [Hn _].
  apply andb_prop in Hn. destruct Hn as [Hs He].
  apply andb_prop in Hv. destruct Hv as [Hvs _].
  now rewrite Hs, He, Hvs.
Qed.

Lemma named_stored (name value path : string) (e : option Z) :
  named name (mkCookie name value path e) = true.
Proof. unfold named. cbn [c_name]. apply String.eqb_refl. Qed.

Lemma named_other (name other value path : string) (e : option Z) :
  other <> name -> named other (mkCookie name value path e) = false.
Proof.
  intros H. unfold named. cbn [c_name]. apply String.eqb_neq. congruence.
Qed.

(** X19. [setCookie] then [getCookie] gives the value back.  For a name
    without [;] and [=] and a value without [;], both non-blank at their ends,
    written into a well-formed jar that holds no cookie of that name under
    another path, [getCookie(name)] returns the value at any time from the
    writing up to the expiry date, [days] days ahead in whole seconds. *)
Theorem setCookie_getCookie (name value : string) (days t : Z) (w : env) :
  cookie_name_ok name = true ->
  cookie_value_ok value = true ->
  forallb cookie_ok (jar w) = true ->
  unshadowed name (jar w) = true ->
  now w <= t < expiry (now w) days ->
  getCookie name (set_now t (setCookie name value days w)) = Some value.
Proof.
  intros Hn Hv Hok Hsh Ht.
  pose proof Hn as Hn'. unfold cookie_name_ok in Hn'.
  apply andb_prop in Hn'. destruct Hn' as [Hn' _].
  apply andb_prop in Hn'. destruct Hn' as [Hn' _].
  apply andb_prop in Hn'. destruct Hn' as [Hs He].
  rewrite setCookie_stores by assumption. cbv zeta.
  destruct (Z.leb_spec (expiry (now w) days) (now w)); [lia|].
  rewrite getCookie_sole_value; trivial.
  - unfold sole_value, served. cbn [set_now set_jar jar now].
    rewrite filter_app, filter_app. cbn [filter live c_expires].
    destruct (Z.ltb_spec t (expiry (now w) days)); [|lia].
    cbn [filter]. rewrite named_stored.
    rewrite filter_all_false by (apply Forall_filter, others_unnamed, Hsh).
    reflexivity.
  - cbn [set_now set_jar jar]. rewrite forallb_app, others_ok by exact Hok.
    cbn [forallb]. now rewrite stored_ok.
Qed.

Lemma setCookie_getCookie_witness :
  getCookie "currency"
    (set_now 90000000
       (setCookie "currency" "EUR" 7
          (mkEnv 1000 [mkCookie "currency" "USD" "/" None; mkCookie "cart" "abc" "/" None]
                 [] 1%positive 0 [])))
  = Some "EUR".
Proof.
  apply (setCookie_getCookie "currency" "EUR" 7 90000000
           (mkEnv 1000 [mkCookie "currency" "USD" "/" None; mkCookie "cart" "abc" "/" None]
                  [] 1%positive 0 []));
    try reflexivity.
  vm_compute. split; [discriminate | reflexivity].
Defined.

(** X20. [setCookie] with zero or negative [days] deletes: the date written
    is not after the present, the cookie of that name and path [/] is removed
    and nothing is stored, so [getCookie(name)] is null afterwards. *)
Theorem setCookie_deletes (name value : string) (days : Z) (w : env) :
  cookie_name_ok name = true ->
  cookie_value_ok value = true ->
  forallb cookie_ok (jar w) = true ->
  unshadowed name (jar w) = true ->
  days <= 0 ->
  getCookie name (setCookie name value days w) = None.
Proof.
  intros Hn Hv Hok Hsh Hd.
  pose proof Hn as Hn'. unfold cookie_name_ok in Hn'.
  apply andb_prop in Hn'. destruct Hn' as [Hn' _].
  apply andb_prop in Hn'. destruct Hn' as [Hn' _].
  apply andb_prop in Hn'. destruct Hn' as [Hs He].
  rewrite setCookie_stores by assumption. cbv zeta.
  assert (Hexp : expiry (now w) days <= now w).
  { unfold expiry, whole_seconds.
    pose proof (Z.mul_div_le (now w + days * 24 * 60 * 60 * 1000) 1000 ltac:(lia)). lia. }
  destruct (Z.leb_spec (expiry (now w) days) (now w)); [|lia].
  rewrite getCookie_sole_value; trivial.
  - unfold sole_value, served. cbn [set_jar jar now].
    rewrite filter_all_false by (apply Forall_filter, others_unnamed, Hsh).
    reflexivity.
  - cbn [set_jar jar]. now apply others_ok.
Qed.

Lemma setCookie_deletes_witness :
  getCookie "currency"
    (setCookie "currency" "" (-1)
       (mkEnv 1000 [mkCookie "currency" "USD" "/" None] [] 1%positive 0 []))
  = None.
Proof.
  apply (setCookie_deletes "currency" "" (-1)
           (mkEnv 1000 [mkCookie "currency" "USD" "/" None] [] 1%positive 0 []));
    try reflexivity.
  lia.
Defined.

Lemma filter_narrow {A} (p q r : A -> bool) (l : list A) :
  (forall x, p x = true -> q x = true) ->
  filter p (filter r (filter q l)) = filter p (filter r l).
Proof.
  intros H. induction l as [|x l IH]; [reflexivity|]. cbn [filter].
  destruct (q x) eqn:Eq; cbn [filter].
  - destruct (r x); cbn [filter]; [destruct (p x)|]; now rewrite ?IH.
  - destruct (r x); cbn [filter]; [|exact IH].
    destruct (p x) eqn:Ep; [|exact IH]. rewrite (H x Ep) in Eq. discriminate.
Qed.

(** X21. [setCookie] leaves the other cookies readable as before: for
    another name without [;] and [=], [getCookie] returns after the write, at
    the same time, what it returned before it. *)
Theorem setCookie_other_name (name value other : string) (days : Z) (w : env) :
  cookie_name_ok name = true ->
  cookie_value_ok value = true ->
  forallb cookie_ok (jar w) = true ->
  lacks ";" other = true -> lacks "=" other = true ->
  other <> name ->
  getCookie other (setCookie name value days w) = getCookie other w.
Proof.
  intros Hn Hv Hok Hs He Hne.
  rewrite setCookie_stores by assumption. cbv zeta.
  assert (Hnarrow : forall c, named other c = true -> negb (same_cookie name "/" c) = true).
  { intros c Hc. unfold named, same_cookie in *. apply String.eqb_eq in Hc.
    rewrite Hc. apply String.eqb_neq in Hne. now rewrite Hne. }
  rewrite (getCookie_sole_value other w Hs He Hok).
  destruct (expiry (now w) days <=? now w).
  - rewrite getCookie_sole_value; trivial; [|cbn [set_jar jar]; now apply others_ok].
    unfold sole_value, served. cbn [set_jar jar now].
    now rewrite (filter_narrow _ _ _ _ Hnarrow).
  - rewrite getCookie_sole_value; trivial.
    + unfold sole_value, served. cbn [set_jar jar now].
      rewrite filter_app, filter_app, (filter_narrow _ _ _ _ Hnarrow).
      cbn [filter live c_expires].
      destruct (now w <? expiry (now w) days); cbn [filter];
        rewrite ?named_other by exact Hne; now rewrite app_nil_r.
    + cbn [set_jar jar]. rewrite forallb_app, others_ok by exact Hok.
      cbn [forallb]. now rewrite stored_ok.
Qed.

Lemma setCookie_other_name_witness :
  let w := mkEnv 1000 [mkCookie "cart" "abc" "/" None] [] 1%positive 0 [] in
  getCookie "cart" (setCookie "currency" "EUR" 7 w) = getCookie "cart" w.
Proof.
  cbv zeta.
  apply (setCookie_other_name "currency" "EUR" "cart" 7
           (mkEnv 1000 [mkCookie "cart" "abc" "/" None] [] 1%positive 0 []));
    try reflexivity.
  discriminate.
Defined.

(** What [init] reads: the bar is closed exactly when the lookup of the
    dismissal cookie gives [true]. *)
Lemma init_reads_cookie (s : state) (w : env) :
  showCloseButton s = true ->
  lacks ";" (sectionId s) = true -> lacks "=" (sectionId s) = true ->
  forallb cookie_ok (jar w) = true ->
  isClosed (fst (init (s, w))) = strict_eq (sole_value (closed_cookie_name s) w) "true".
Proof.
  intros Hb Hs He Hok. unfold init. rewrite Hb.
  rewrite getCookie_sole_value;
    [| now apply closed_cookie_name_lacks | now apply closed_cookie_name_lacks | exact Hok].
  set (b := strict_eq _ "true").
  change (isClosed (set_isClosed b s)) with b.
  destruct (negb b && (1 <? totalMessages (set_isClosed b s))); cbn [fst]; [|reflexivity].
  now rewrite startRotation_state.
Qed.

(** Whether [init] leaves a timer running on a component that had none. *)
Lemma init_timer (s : state) (w : env) :
  intervalId s = None ->
  let c := init (s, w) in
  (intervalId (fst c) <> None <-> isClosed (fst c) = false /\ 1 < totalMessages s) /\
  timers (snd c) = (own_timer (fst c) ++ timers w)%list /\
  rotationSpeed (fst c) = rotationSpeed s.
Proof.
  intros Hid. cbv zeta. unfold init.
  set (s1 := if showCloseButton s then _ else s).
  assert (H1 : intervalId s1 = None /\ totalMessages s1 = totalMessages s /\
               rotationSpeed s1 = rotationSpeed s).
  { subst s1. destruct (showCloseButton s); repeat split; exact Hid. }
  destruct H1 as (Hi1 & Ht1 & Hr1).
  destruct (isClosed s1) eqn:Ec; cbn [negb andb].
  - cbn [fst snd addEventListener_keydown timers]. unfold own_timer. rewrite Hi1, Ec.
    repeat split; try tauto; try exact Hr1. intros [? _]. discriminate.
  - rewrite Ht1. destruct (Z.ltb_spec 1 (totalMessages s)).
    + unfold startRotation, setInterval, own_timer. rewrite Hi1.
      cbn [fst snd addEventListener_keydown timers record_call set_intervalId intervalId
           isClosed rotationSpeed next_timer app].
      rewrite Ec, Hr1. repeat split; try tauto. discriminate.
    + cbn [fst snd addEventListener_keydown timers]. unfold own_timer. rewrite Hi1, Ec.
      repeat split; try tauto; try exact Hr1. intros [_ ?]. lia.
Qed.

(** X22. How a new rotator with a close button attaches.  With a section id
    free of [;] and [=] and a well-formed jar, [init] closes the bar exactly
    when one cookie [announcement-<sectionId>-closed], and only one, is in
    scope and its value is [true]; on a first visit, with a stale value, or
    with the name served twice, the bar is shown.  A timer is then started
    exactly when the bar is shown and there are several messages, and it is
    the only timer [init] installs. *)
Theorem init_by_cookie (total speed : Z) (sid : string) (w : env) :
  lacks ";" sid = true -> lacks "=" sid = true ->
  forallb cookie_ok (jar w) = true ->
  let s := create total speed sid true in
  let c := init (s, w) in
  (isClosed (fst c) = true <-> sole_value (closed_cookie_name s) w = Some "true") /\
  (intervalId (fst c) <> None <->
     sole_value (closed_cookie_name s) w <> Some "true" /\ 1 < total) /\
  timers (snd c) = (own_timer (fst c) ++ timers w)%list.
Proof.
  intros Hs He Hok. cbv zeta.
  pose proof (init_reads_cookie (create total speed sid true) w eq_refl Hs He Hok) as Hc.
  destruct (init_timer (create total speed sid true) w eq_refl) as (Ht & Htm & _).
  assert (Hiff : isClosed (fst (init (create total speed sid true, w))) = true <->
                 sole_value (closed_cookie_name (create total speed sid true)) w
                 = Some "true").
  { rewrite Hc. unfold strict_eq.
    destruct (sole_value _ w) as [v|]; [|split; discriminate].
    split; [intros H; apply String.eqb_eq in H; now subst | intros [= ->]; reflexivity]. }
  split; [exact Hiff|]. split; [|exact Htm].
  rewrite Ht. cbn [totalMessages create].
  destruct (isClosed (fst (init (create total speed sid true, w)))).
  - split; [intros [? _]; discriminate | intros [H _]; exfalso; apply H; now apply Hiff].
  - split; intros [H1 H2]; split; trivial.
    intros H. apply Hiff in H. discriminate.
Qed.

Lemma init_by_cookie_witness :
  let w := mkEnv 1000 [mkCookie "announcement-bar-closed" "true" "/" (Some 900)]
                 [] 1%positive 0 [] in
  intervalId (fst (init (create 3 5000 "bar" true, w))) <> None.
Proof.
  cbv zeta.
  apply (init_by_cookie 3 5000 "bar"
           (mkEnv 1000 [mkCookie "announcement-bar-closed" "true" "/" (Some 900)]
                  [] 1%positive 0 []));
    try reflexivity.
  split; [vm_compute; discriminate | lia].
Defined.

(** X23. The dismissal lasts 30 days and no longer.  Under the conditions of
    the round trip (section id free of [;] and [=], well-formed jar, no cookie
    of the dismissal name under another path), an [init()] of a new rotator
    with the same section id that runs at or after the expiry date written by
    [closeAnnouncement()] finds the bar not closed, and starts rotation
    exactly when there are several messages. *)
Theorem dismissal_expires (s : state) (w : env) (t total speed : Z) :
  lacks ";" (sectionId s) = true ->
  lacks "=" (sectionId s) = true ->
  forallb cookie_ok (jar w) = true ->
  unshadowed (closed_cookie_name s) (jar w) = true ->
  whole_seconds (now w + thirty_days) <= t ->
  let c1 := closeAnnouncement (s, w) in
  let c2 := init (create total speed (sectionId s) true, set_now t (snd c1)) in
  isClosed (fst c2) = false /\ (intervalId (fst c2) <> None <-> 1 < total).
Proof.
  intros Hsemi Heq Hok Hsh Ht. cbv zeta.
  unfold closeAnnouncement.
  destruct (stopRotation_fields (set_isClosed true s, w))
    as (_ & _ & _ & _ & _ & Hsid & _ & Hnow & Hjar & _).
  destruct (stopRotation (set_isClosed true s, w)) as [s1 w1].
  cbn [fst snd] in *.
  change (sectionId (set_isClosed true s)) with (sectionId s) in Hsid.
  rewrite setCookie_closed by congruence.
  rewrite (closed_cookie_name_ext s1 s Hsid), Hjar.
  set (others := filter _ (jar w)).
  set (w2 := set_now t _).
  assert (Hok2 : forallb cookie_ok (jar w2) = true).
  { subst w2 others. cbn [set_now set_jar jar]. rewrite forallb_app, others_ok by exact Hok.
    cbn [forallb]. unfold dismissal_cookie, cookie_ok. cbn [c_name c_value].
    rewrite (closed_cookie_name_ext s1 s Hsid).
    rewrite !closed_cookie_name_lacks by (trivial; reflexivity). reflexivity. }
  assert (Hnone : sole_value (closed_cookie_name s) w2 = None).
  { subst w2 others. unfold sole_value, served. cbn [set_now set_jar jar now].
    rewrite filter_app, filter_app. unfold dismissal_cookie at 1.
    cbn [filter live c_expires]. rewrite Hnow.
    destruct (Z.ltb_spec t (whole_seconds (now w + thirty_days))); [lia|].
    cbn [filter]. rewrite app_nil_r.
    rewrite filter_all_false by (apply Forall_filter, others_unnamed, Hsh).
    reflexivity. }
  pose proof (init_reads_cookie (create total speed (sectionId s) true) w2
                eq_refl Hsemi Heq Hok2) as Hc.
  rewrite (closed_cookie_name_ext (create total speed (sectionId s) true) s eq_refl),
    Hnone in Hc. cbn [strict_eq] in Hc.
  destruct (init_timer (create total speed (sectionId s) true) w2 eq_refl) as (Htm & _).
  split; [exact Hc|]. rewrite Htm, Hc. cbn [totalMessages create]. tauto.
Qed.

Lemma dismissal_expires_witness :
  let s := create 3 5000 "bar" true in
  let w := mkEnv 1700000000123 [] [] 1%positive 0 [] in
  isClosed (fst (init (s, set_now 1702592001000 (snd (closeAnnouncement (s, w))))))
  = false.
Proof.
  cbv zeta.
  apply (dismissal_expires (create 3 5000 "bar" true)
           (mkEnv 1700000000123 [] [] 1%positive 0 []) 1702592001000 3 5000);
    try reflexivity.
  vm_compute. discriminate.
Defined.

End CookieFacts.

(* ------------------------------------------------------------------------- *)
(** ** The two copies of alpineAnnouncement *)

Section TwoCopies.
Import AnnouncementBasic.

Ltac project :=
  cbn [fst snd forget
       currentIndex totalMessages rotationSpeed intervalId isClosed sectionId showCloseButton
       set_currentIndex set_intervalId set_isClosed
       Announcement.currentIndex Announcement.totalMessages Announcement.rotationSpeed
       Announcement.intervalId Announcement.isPaused Announcement.isClosed
       Announcement.sectionId Announcement.showCloseButton
       Announcement.set_currentIndex Announcement.set_intervalId Announcement.set_isClosed
       Announcement.now Announcement.jar Announcement.timers Announcement.next_timer
       Announcement.keydown_listeners Announcement.history
       Announcement.record_call Announcement.setInterval Announcement.clearInterval
       Announcement.addEventListener_keydown Announcement.set_jar].

Lemma startRotation_in_step (c : Announcement.config) (c' : config) :
  in_step c c' -> in_step (Announcement.startRotation c) (startRotation c').
Proof.
  intros (Hf & Hw & Hp).
  destruct c as [[i n sp id p cl sid scb] [t j tm nt k h]].
  destruct c' as [s' [t' j' tm' nt' k' h']].
  unfold same_browser in Hw. cbn in Hf, Hw, Hp. subst s' p.
  destruct Hw as (<- & <- & <- & <- & <-).
  unfold in_step, same_browser, Announcement.startRotation, startRotation.
  project. destruct id; project; repeat split.
Qed.

Lemma stopRotation_in_step (c : Announcement.config) (c' : config) :
  in_step c c' -> in_step (Announcement.stopRotation c) (stopRotation c').
Proof.
  intros (Hf & Hw & Hp).
  destruct c as [[i n sp id p cl sid scb] [t j tm nt k h]].
  destruct c' as [s' [t' j' tm' nt' k' h']].
  unfold same_browser in Hw. cbn in Hf, Hw, Hp. subst s' p.
  destruct Hw as (<- & <- & <- & <- & <-).
  unfold in_step, same_browser, Announcement.stopRotation, stopRotation.
  project. destruct id; project; repeat split.
Qed.

Lemma getCookie_same_browser (name : string) (w w' : Announcement.env) :
  same_browser w w' -> Announcement.getCookie name w = Announcement.getCookie name w'.
Proof. intros (Hn & Hj & _). now apply getCookie_ext. Qed.

Lemma setCookie_same_browser (name value : string) (days : Z) (w w' : Announcement.env) :
  same_browser w w' ->
  same_browser (Announcement.setCookie name value days w)
               (Announcement.setCookie name value days w').
Proof.
  intros (Hn & Hj & Ht & Hnt & Hh).
  unfold Announcement.setCookie, Announcement.document_cookie_set. rewrite Hn, Hj.
  destruct (find_first "=" _) as [[a b]|]; [|repeat split; assumption].
  destruct (String.eqb (trim a) ""); [repeat split; assumption|].
  unfold same_browser. project. repeat split; assumption.
Qed.

Lemma step_in_step (o : op) (c : Announcement.config) (c' : config) :
  in_step c c' -> in_step (Announcement.act (on_full o) c) (step o c').
Proof.
  intros H. destruct o; cbn [on_full Announcement.act Announcement.step step].
  - (* init *)
    destruct H as (Hf & Hw & Hp). destruct c as [s w], c' as [s' w'].
    cbn [fst snd] in *. subst s'.
    unfold Announcement.init, init. project.
    change (closed_cookie_name (forget s)) with (Announcement.closed_cookie_name s).
    rewrite (getCookie_same_browser _ w w' Hw).
    set (b := Announcement.strict_eq _ "true").
    set (s1 := if Announcement.showCloseButton s then Announcement.set_isClosed b s else s).
    assert (E : (if Announcement.showCloseButton s
                 then set_isClosed b (forget s) else forget s) = forget s1).
    { subst s1. destruct (Announcement.showCloseButton s); reflexivity. }
    rewrite E.
    assert (H1 : in_step (s1, w) (forget s1, w')).
    { repeat split; try apply Hw. subst s1.
      destruct (Announcement.showCloseButton s); exact Hp. }
    change (isClosed (forget s1)) with (Announcement.isClosed s1).
    change (totalMessages (forget s1)) with (Announcement.totalMessages s1).
    destruct (negb (Announcement.isClosed s1) && (1 <? Announcement.totalMessages s1)).
    + destruct (startRotation_in_step _ _ H1) as (G1 & G2 & G3).
      repeat split; project; try exact G1; try exact G3; apply G2.
    + destruct H1 as (G1 & G2 & G3).
      repeat split; project; try exact G1; try exact G3; apply G2.
  - now apply startRotation_in_step.
  - now apply stopRotation_in_step.
  - destruct H as (Hf & Hw & Hp). destruct c as [s w], c' as [s' w'].
    cbn [fst snd] in *. subst s'. repeat split; try apply Hw; exact Hp.
  - (* closeAnnouncement *)
    destruct H as (Hf & Hw & Hp). destruct c as [s w], c' as [s' w'].
    cbn [fst snd] in *. subst s'.
    unfold Announcement.closeAnnouncement, closeAnnouncement.
    assert (H1 : in_step (Announcement.set_isClosed true s, w)
                         (set_isClosed true (forget s), w'))
      by (repeat split; try apply Hw; exact Hp).
    apply stopRotation_in_step in H1.
    destruct (Announcement.stopRotation _) as [s1 w1].
    destruct (stopRotation _) as [s1' w1'].
    destruct H1 as (G1 & G2 & G3). cbn [fst snd] in *. subst s1'.
    change (closed_cookie_name (forget s1)) with (Announcement.closed_cookie_name s1).
    repeat split; try exact G3; now apply setCookie_same_browser.
  - now apply stopRotation_in_step.
  - (* a timer fires *)
    destruct H as (Hf & Hw & Hp). destruct c as [s w], c' as [s' w'].
    cbn [fst snd] in *. subst s'.
    unfold Announcement.fire, fire, Announcement.interval_callback.
    destruct Hw as (Hn & Hj & Ht & Hnt & Hh). rewrite Ht, Hp. cbn [negb].
    destruct (existsb _ (Announcement.timers w')); repeat split; assumption.
Qed.

(** X24. The two copies of the announcement component agree.  On the
    methods the smaller copy has (init, startRotation, stopRotation, next,
    closeAnnouncement, destroy) and on timer firings, the full component, as
    long as it is not paused, goes through the same states as the smaller one,
    pause flag aside, and has the same effect on the clock, the cookies and the
    timers; the browsers differ only in the key listener the full copy adds. *)
Theorem copies_in_step (ops : list op) (c : Announcement.config) (c' : config) :
  in_step c c' ->
  in_step (Announcement.run_actions (map on_full ops) c) (run ops c').
Proof.
  revert c c'. induction ops as [|o ops IH]; intros c c' H; [exact H|].
  cbn [map].
  change (Announcement.run_actions (on_full o :: map on_full ops) c)
    with (Announcement.run_actions (map on_full ops) (Announcement.act (on_full o) c)).
  change (run (o :: ops) c') with (run ops (step o c')).
  apply IH, step_in_step, H.
Qed.

Lemma copies_in_step_witness :
  let w := Announcement.mkEnv 0 [] [] 1%positive 0 [] in
  in_step
    (Announcement.run_actions
       (map on_full [OpInit; OpFire 1%positive; OpCloseAnnouncement; OpInit])
       (Announcement.create 3 5000 "bar" true, w))
    (run [OpInit; OpFire 1%positive; OpCloseAnnouncement; OpInit]
         (create 3 5000 "bar" true, w)).
Proof.
  cbv zeta.
  apply (copies_in_step [OpInit; OpFire 1%positive; OpCloseAnnouncement; OpInit]
           (Announcement.create 3 5000 "bar" true, Announcement.mkEnv 0 [] [] 1%positive 0 [])
           (create 3 5000 "bar" true, Announcement.mkEnv 0 [] [] 1%positive 0 [])).
  repeat split.
Defined.

End TwoCopies.
